(** * Ubiquiti store scraper: a shallow embedding and its properties

  The development follows the JavaScript sources:
  - [utils.js]           ([determineCategory], [extractLinks]),
  - [product-parser.js]  (the [ProductParser] selector cascades),
  - [crawler.js]         ([UbiquitiCrawler.start], [processPage]),
  - [config.js]          (the configuration record).

  Conventions.  JavaScript strings are modelled by [string]; the
  case mappings and the white-space test are the ASCII ones, so the
  model speaks about ASCII text.  A JavaScript [Set] is a list without
  repetition kept in insertion order, which is also its iteration
  order.  The object used as a map by the specification extractor is a
  [gmap string string]. *)

From Stdlib Require Import String Ascii ZArith List Bool Lia.
From Stdlib Require Import Decimal DecimalString DecimalNat.
From stdpp Require Import gmap strings list fin_maps.
From Equations Require Import Equations.

Local Open Scope string_scope.
Local Open Scope Z_scope.

(** ** JavaScript string primitives *)

Module JS.

Definition code (c : ascii) : N := N_of_ascii c.

Definition isUpper (c : ascii) : bool :=
  ((65 <=? code c) && (code c <=? 90))%N.

Definition isLower (c : ascii) : bool :=
  ((97 <=? code c) && (code c <=? 122))%N.

Definition lowerChar (c : ascii) : ascii :=
  if isUpper c then ascii_of_N (code c + 32) else c.

Definition upperChar (c : ascii) : ascii :=
  if isLower c then ascii_of_N (code c - 32) else c.

(** [s.toLowerCase()] and [s.toUpperCase()]. *)
Fixpoint toLowerCase (s : string) : string :=
  match s with
  | EmptyString => EmptyString
  | String c s' => String (lowerChar c) (toLowerCase s')
  end.

Fixpoint toUpperCase (s : string) : string :=
  match s with
  | EmptyString => EmptyString
  | String c s' => String (upperChar c) (toUpperCase s')
  end.

(** [s.startsWith(p)]. *)
Fixpoint startsWith (s p : string) : bool :=
  match p, s with
  | EmptyString, _ => true
  | String a p', String b s' => Ascii.eqb a b && startsWith s' p'
  | String _ _, EmptyString => false
  end.

(** [s.includes(p)]: [p] starts at some position of [s]. *)
Fixpoint includes (s p : string) : bool :=
  startsWith s p ||
  match s with
  | EmptyString => false
  | String _ s' => includes s' p
  end.

(** [s.endsWith(p)]: some suffix of [s] is [p]. *)
Fixpoint endsWith (s p : string) : bool :=
  String.eqb s p ||
  match s with
  | EmptyString => false
  | String _ s' => endsWith s' p
  end.

(** [s.split(sep)] for a one-character separator; the empty string
    splits into one empty piece. *)
Fixpoint split (sep : ascii) (s : string) : list string :=
  match s with
  | EmptyString => [EmptyString]
  | String c s' =>
      if Ascii.eqb c sep then EmptyString :: split sep s'
      else match split sep s' with
           | w :: ws => String c w :: ws
           | [] => [String c EmptyString]
           end
  end.

(** [parts.join(sep)]. *)
Fixpoint join (sep : string) (parts : list string) : string :=
  match parts with
  | [] => EmptyString
  | [w] => w
  | w :: ws => w ++ sep ++ join sep ws
  end.

(** [parts.indexOf(x)], [-1] when [x] is absent. *)
Fixpoint indexOf (x : string) (parts : list string) : Z :=
  match parts with
  | [] => -1
  | y :: ys =>
      if String.eqb y x then 0
      else let i := indexOf x ys in if i =? -1 then -1 else i + 1
  end.

(** [s.charAt(0)] and [s.slice(1)]. *)
Definition charAt0 (s : string) : string :=
  match s with
  | EmptyString => EmptyString
  | String c _ => String c EmptyString
  end.

Definition slice1 (s : string) : string :=
  match s with
  | EmptyString => EmptyString
  | String _ s' => s'
  end.

(** White space and line terminators removed by [s.trim()]. *)
Definition isSpace (c : ascii) : bool :=
  let n := code c in
  ((n =? 32) || ((9 <=? n) && (n <=? 13)))%N.

Fixpoint trimStart (s : string) : string :=
  match s with
  | EmptyString => EmptyString
  | String c s' => if isSpace c then trimStart s' else s
  end.

Fixpoint trimEnd (s : string) : string :=
  match s with
  | EmptyString => EmptyString
  | String c s' =>
      match trimEnd s' with
      | EmptyString => if isSpace c then EmptyString else String c EmptyString
      | t => String c t
      end
  end.

Definition trim (s : string) : string := trimEnd (trimStart s).

(** The double quote character. *)
Definition doubleQuote : ascii := ascii_of_N 34.

(** Truthiness of a string: non-empty. *)
Definition truthy (s : string) : bool := negb (String.eqb s EmptyString).

(** A [Set] in insertion order. *)
Definition setHas (x : string) (s : list string) : bool :=
  bool_decide (x ∈ s).

Definition setAdd (x : string) (s : list string) : list string :=
  if setHas x s then s else s ++ [x].

(** [new Set(xs)]: the elements of [xs], first occurrences only. *)
Definition setOf (xs : list string) : list string :=
  foldl (fun s x => setAdd x s) [] xs.

End JS.

(** ** utils.js: determineCategory *)

Definition determineCategory
    (productName url : string) (categories : list string) : string :=
  let urlParts := JS.split "/" url in
  let collectionIndex := JS.indexOf "collections" urlParts in
  let byName :=
    match
      List.find
        (fun category =>
           JS.includes (JS.toLowerCase productName) (JS.toLowerCase category))
        categories
    with
    | Some category => category
    | None => "Other"
    end in
  if negb (collectionIndex =? -1)
     && (collectionIndex + 1 <? Z.of_nat (length urlParts))
  then
    let urlCategory := nth (Z.to_nat (collectionIndex + 1)) urlParts "" in
    if JS.truthy urlCategory && negb (String.eqb urlCategory "")
    then
      JS.join " "
        (map (fun word => JS.toUpperCase (JS.charAt0 word) ++ JS.slice1 word)
             (JS.split "-" urlCategory))
    else byName
  else byName.

(** ** Regular expressions of the sources

    The two regular expressions of the sources are sequences of
    one-character tests, greedy stars over a character class, one
    capturing group [(class+)] and the end-of-input assertion.  The
    matcher backtracks as the JavaScript one does: a greedy repetition
    first takes as many characters as it can and gives them back one by
    one while the rest of the pattern fails. *)

Module RegExp.

Inductive item : Type :=
| Chr (p : ascii -> bool)     (* one character of a class *)
| Star (p : ascii -> bool)    (* class*, greedy *)
| Group (p : ascii -> bool)   (* (class+), greedy, captured *)
| Eoi.                        (* $ without the m flag *)

Definition pattern : Type := list item.

(** [matchHere pat s]: match [pat] at the start of [s]; the result is
    the captured text (empty when [pat] has no group) and the text
    left after the match. *)
Fixpoint matchHere (pat : pattern) (s : string) {struct pat}
  : option (string * string) :=
  match pat with
  | [] => Some (EmptyString, s)
  | Chr p :: pat' =>
      match s with
      | String c s' => if p c then matchHere pat' s' else None
      | EmptyString => None
      end
  | Star p :: pat' =>
      (fix star (s : string) : option (string * string) :=
         match s with
         | String c s' =>
             if p c then
               match star s' with
               | Some r => Some r
               | None => matchHere pat' s
               end
             else matchHere pat' s
         | EmptyString => matchHere pat' s
         end) s
  | Group p :: pat' =>
      (fix plus (s : string) : option (string * string) :=
         match s with
         | String c s' =>
             if p c then
               match plus s' with
               | Some (cap, rest) => Some (String c cap, rest)
               | None =>
                   match matchHere pat' s' with
                   | Some (_, rest) => Some (String c EmptyString, rest)
                   | None => None
                   end
               end
             else None
         | EmptyString => None
         end) s
  | Eoi :: pat' =>
      match s with
      | EmptyString => matchHere pat' s
      | String _ _ => None
      end
  end.

(** Alternation [pat1|pat2|...]: the first alternative that matches. *)
Fixpoint matchAlt (alts : list pattern) (s : string)
  : option (string * string) :=
  match alts with
  | [] => None
  | pat :: alts' =>
      match matchHere pat s with
      | Some r => Some r
      | None => matchAlt alts' s
      end
  end.

(** [re.exec(s)] from the start of [s]: the leftmost match.  The
    result is the text before the match, the capture and the text
    after the match. *)
Fixpoint exec (alts : list pattern) (s : string)
  : option (string * string * string) :=
  match matchAlt alts s with
  | Some (cap, rest) => Some (EmptyString, cap, rest)
  | None =>
      match s with
      | EmptyString => None
      | String c s' =>
          match exec alts s' with
          | Some (before, cap, rest) => Some (String c before, cap, rest)
          | None => None
          end
      end
  end.

(** [s.replace(re, '')] for a regular expression without the g flag. *)
Definition remove (alts : list pattern) (s : string) : string :=
  match exec alts s with
  | Some (before, _, rest) => before ++ rest
  | None => s
  end.

(** Literal text, and literal text under the i flag. *)
Definition lit (s : string) : pattern :=
  map (fun a => Chr (Ascii.eqb a)) (list_ascii_of_string s).

Definition sameLetter (a c : ascii) : bool :=
  Ascii.eqb (JS.upperChar a) (JS.upperChar c).

Definition litI (s : string) : pattern :=
  map (fun a => Chr (sameLetter a)) (list_ascii_of_string s).

(** A class range [[lo-hi]] under the i flag: [c] is in the class when
    its canonical form is the canonical form of a member. *)
Definition rangeI (lo hi : N) (c : ascii) : bool :=
  existsb (fun k => sameLetter (ascii_of_N (lo + N.of_nat k)) c)
          (seq 0 (N.to_nat (hi - lo) + 1)).

(** [.]: any character except a line terminator. *)
Definition dot (c : ascii) : bool :=
  negb ((JS.code c =? 10) || (JS.code c =? 13))%N.

Definition isQuote (c : ascii) : bool :=
  Ascii.eqb c JS.doubleQuote || Ascii.eqb c "'".

End RegExp.

(** ** utils.js: extractLinks *)

(** [/href=["']([^"']+)["']|src=["']([^"']+)["']/g] *)
Definition linkRegex : list RegExp.pattern :=
  let attr name :=
    (RegExp.lit name ++
     [RegExp.Chr RegExp.isQuote;
      RegExp.Group (fun c => negb (RegExp.isQuote c));
      RegExp.Chr RegExp.isQuote])%list in
  [attr "href="; attr "src="].

(** The loop [while ((match = regex.exec(html)) !== null)]: every turn
    resumes after the previous match.  A match takes at least one
    character, so [String.length html] turns are always enough; the
    fuel makes the recursion structural. *)
Fixpoint execLoop (fuel : nat) (html : string) : list string :=
  match fuel with
  | O => []
  | S fuel' =>
      match RegExp.exec linkRegex html with
      | Some (_, url, rest) => url :: execLoop fuel' rest
      | None => []
      end
  end.

Definition linkMatches (html : string) : list string :=
  execLoop (S (String.length html)) html.

Section ExtractLinks.

(** [new URL(url, baseUrl).href]; [None] when the constructor throws. *)
Variable newURL : string -> string -> option string.

Definition pushLink (fileExtensions : list string) (baseUrl : string)
    (links : list string) (url : string) : list string :=
  if JS.truthy url then
    let hasMatchingExtension :=
      existsb (fun ext => JS.endsWith (JS.toLowerCase url) ext)
              fileExtensions in
    if hasMatchingExtension then
      match newURL url baseUrl with
      | Some absoluteUrl => (links ++ [absoluteUrl])%list
      | None => links
      end
    else links
  else links.

Definition extractLinks
    (html : string) (fileExtensions : list string) (baseUrl : string)
  : list string :=
  let links := foldl (pushLink fileExtensions baseUrl) [] (linkMatches html) in
  JS.setOf links.

End ExtractLinks.

(** ** The URL constructor

    A model of [new URL(input, base)] for the URLs the scraper meets:
    [http] and [https] URLs written with [//] and references without a
    scheme, in characters that need no percent-encoding.  The record
    holds the components of the parsed URL; [href] serialises it. *)

Module URL.

Record t : Type := mk {
  scheme : string;
  host : string;
  pathname : string;
  query : option string;
  fragment : option string
}.

(** The longest prefix of characters satisfying [p], and what follows. *)
Fixpoint span (p : ascii -> bool) (s : string) : string * string :=
  match s with
  | EmptyString => (EmptyString, EmptyString)
  | String c s' =>
      if p c then let (a, b) := span p s' in (String c a, b)
      else (EmptyString, s)
  end.

Fixpoint drop (n : nat) (s : string) : string :=
  match n, s with
  | S n', String _ s' => drop n' s'
  | _, _ => s
  end.

Definition isOneOf (cs : string) (c : ascii) : bool :=
  existsb (Ascii.eqb c) (list_ascii_of_string cs).

Definition splitScheme (s : string) : option (string * string) :=
  if JS.startsWith (JS.toLowerCase s) "https://" then Some ("https", drop 8 s)
  else if JS.startsWith (JS.toLowerCase s) "http://" then Some ("http", drop 7 s)
  else None.

(** [path?query#fragment] *)
Definition splitTail (s : string) : string * option string * option string :=
  let (path, r) := span (fun c => negb (isOneOf "?#" c)) s in
  match r with
  | EmptyString => (path, None, None)
  | String c r' =>
      if Ascii.eqb c "?" then
        let (q, r'') := span (fun c => negb (isOneOf "#" c)) r' in
        (path, Some q, match r'' with
                       | EmptyString => None
                       | String _ f => Some f
                       end)
      else (path, None, Some r')
  end.

(** Path segments with [.] and [..] resolved; [acc] is reversed. *)
Fixpoint segments (segs acc : list string) : list string :=
  match segs with
  | [] => rev acc
  | seg :: rest =>
      if String.eqb seg "." then
        match rest with [] => rev (EmptyString :: acc) | _ => segments rest acc end
      else if String.eqb seg ".." then
        match rest with
        | [] => rev (EmptyString :: tl acc)
        | _ => segments rest (tl acc)
        end
      else segments rest (seg :: acc)
  end.

Definition pathOf (segs : list string) : string :=
  "/" ++ JS.join "/" (segments segs []).

Definition parse (s : string) : option t :=
  match splitScheme s with
  | None => None
  | Some (sch, r) =>
      let (h, r') := span (fun c => negb (isOneOf "/?#" c)) r in
      if String.eqb h "" then None
      else
        let '(p, q, f) := splitTail r' in
        Some (mk sch (JS.toLowerCase h) (pathOf (JS.split "/" (drop 1 p))) q f)
  end.

(** [new URL(input, base)]; [None] when the constructor throws. *)
Definition resolve (input base : string) : option t :=
  match parse input with
  | Some u => Some u
  | None =>
      match parse base with
      | None => None
      | Some b =>
          if JS.startsWith input "//" then parse (scheme b ++ ":" ++ input)
          else
            let '(p, q, f) := splitTail input in
            if String.eqb p "" then
              Some (mk (scheme b) (host b) (pathname b)
                       (match q with Some _ => q | None => query b end) f)
            else if JS.startsWith p "/" then
              Some (mk (scheme b) (host b)
                       (pathOf (JS.split "/" (drop 1 p))) q f)
            else
              Some (mk (scheme b) (host b)
                       (pathOf (removelast (JS.split "/" (drop 1 (pathname b)))
                                ++ JS.split "/" p)%list) q f)
      end
  end.

Definition href (u : t) : string :=
  scheme u ++ "://" ++ host u ++ pathname u
  ++ match query u with Some q => "?" ++ q | None => "" end
  ++ match fragment u with Some f => "#" ++ f | None => "" end.

Definition newHref (input base : string) : option string :=
  option_map href (resolve input base).

End URL.

(** ** The parsed document and cheerio selections

    [cheerio.load(html)] is taken after parsing: a document is the list
    of its top-level nodes.  A selection is a list of elements in
    document order; an element is kept with its position in the tree
    and its ancestors, nearest first, which is what the descendant
    combinator looks at. *)

Module Dom.

#[warnings="-register-all"]
Inductive node : Type :=
| Element (name : string) (attribs : list (string * string))
          (children : list node)
| Text (data : string)
| Comment (data : string).

Definition document : Type := list node.

Fixpoint concatMapi {A B : Type} (f : nat -> A -> list B) (i : nat)
    (l : list A) : list B :=
  match l with
  | [] => []
  | x :: l' => (f i x ++ concatMapi f (S i) l')%list
  end.

Fixpoint concatText {A : Type} (f : A -> string) (l : list A) : string :=
  match l with
  | [] => EmptyString
  | x :: l' => f x ++ concatText f l'
  end.

(** The text of a node: the data of the text nodes below it. *)
Fixpoint textContent (n : node) : string :=
  match n with
  | Element _ _ kids => concatText textContent kids
  | Text data => data
  | Comment _ => EmptyString
  end.

Record elem : Type := mkElem {
  path : list nat;
  ancestors : list node;
  self : node
}.

(** The elements of the subtree of [n], [n] first, in document order. *)
Fixpoint walk (p : list nat) (anc : list node) (n : node) : list elem :=
  match n with
  | Element _ _ kids =>
      mkElem p anc n
      :: concatMapi (fun i k => walk (p ++ [i]) (n :: anc) k) 0 kids
  | Text _ | Comment _ => []
  end.

Definition elements (doc : document) : list elem :=
  concatMapi (fun i k => walk [i] [] k) 0 doc.

Definition descendants (e : elem) : list elem :=
  match self e with
  | Element _ _ kids =>
      concatMapi (fun i k => walk (path e ++ [i]) (self e :: ancestors e) k)
                 0 kids
  | Text _ | Comment _ => []
  end.

(** *** Selectors *)

Inductive simple : Type :=
| Tag (name : string)                 (* h1 *)
| Class (name : string)               (* .price *)
| HasAttr (name : string)             (* [data-product-price] *)
| AttrIs (name value : string).       (* [name="description"] *)

(** A compound selector is a conjunction, a complex selector a chain of
    compounds under the descendant combinator (the subject last), and a
    selector a comma-separated list of complex selectors. *)
Definition compound : Type := list simple.
Definition complex : Type := list compound.
Definition selector : Type := list complex.

Fixpoint getAttr (name : string) (attribs : list (string * string))
  : option string :=
  match attribs with
  | [] => None
  | (k, v) :: rest => if String.eqb k name then Some v else getAttr name rest
  end.

(** The white-space separated words of an attribute value. *)
Fixpoint words (s : string) : list string :=
  match s with
  | EmptyString => [EmptyString]
  | String c s' =>
      if JS.isSpace c then EmptyString :: words s'
      else match words s' with
           | w :: ws => String c w :: ws
           | [] => [String c EmptyString]
           end
  end.

Definition matchSimple (s : simple) (n : node) : bool :=
  match n with
  | Element tag attribs _ =>
      match s with
      | Tag name => String.eqb tag name
      | Class name =>
          match getAttr "class" attribs with
          | Some v => existsb (String.eqb name) (words v)
          | None => false
          end
      | HasAttr name =>
          match getAttr name attribs with Some _ => true | None => false end
      | AttrIs name value =>
          match getAttr name attribs with
          | Some v => String.eqb v value
          | None => false
          end
      end
  | Text _ | Comment _ => false
  end.

Definition matchCompound (c : compound) (n : node) : bool :=
  forallb (fun s => matchSimple s n) c.

(** [chain] is read from the subject outwards; every compound of it
    must match an ancestor, in order. *)
Fixpoint matchAncestors (chain : list compound) (anc : list node) : bool :=
  match chain with
  | [] => true
  | c :: chain' =>
      (fix up (anc : list node) : bool :=
         match anc with
         | [] => false
         | a :: anc' =>
             (matchCompound c a && matchAncestors chain' anc') || up anc'
         end) anc
  end.

Definition matchComplex (cx : complex) (e : elem) : bool :=
  match rev cx with
  | [] => false
  | subject :: chain =>
      matchCompound subject (self e) && matchAncestors chain (ancestors e)
  end.

Definition matches (sel : selector) (e : elem) : bool :=
  existsb (fun cx => matchComplex cx e) sel.

(** *** Selections *)

(** [$(selector)] *)
Definition select (sel : selector) (doc : document) : list elem :=
  List.filter (matches sel) (elements doc).

Fixpoint isPrefix (p q : list nat) : bool :=
  match p, q with
  | [], _ => true
  | a :: p', b :: q' => Nat.eqb a b && isPrefix p' q'
  | _ :: _, [] => false
  end.

(** The contexts that are neither repeated nor inside another context. *)
Fixpoint removeSubsets (seen ctxs : list elem) : list elem :=
  match ctxs with
  | [] => []
  | e :: rest =>
      if existsb (fun e' => isPrefix (path e') (path e)) (seen ++ rest)%list
      then removeSubsets (seen ++ [e])%list rest
      else e :: removeSubsets (seen ++ [e])%list rest
  end.

(** [$ctx.find(selector)]: the descendants of the elements of [$ctx]
    that match, each once, in document order. *)
Definition find (sel : selector) (ctxs : list elem) : list elem :=
  flat_map (fun e => List.filter (matches sel) (descendants e))
           (removeSubsets [] ctxs).

(** [$sel.first()], [$sel.text()], [$sel.attr(name)], [$($sel[i])]. *)
Definition first (s : list elem) : list elem := firstn 1 s.

Definition text (s : list elem) : string :=
  concatText (fun e => textContent (self e)) s.

Definition attr (name : string) (s : list elem) : option string :=
  match s with
  | [] => None
  | e :: _ =>
      match self e with
      | Element _ attribs _ => getAttr name attribs
      | Text _ | Comment _ => None
      end
  end.

Definition at_ (i : nat) (s : list elem) : list elem :=
  match nth_error s i with
  | Some e => [e]
  | None => []
  end.

End Dom.

(** ** product-parser.js *)

Module ProductParser.

Import Dom.

(** A selector of the source: its text and its parsed form. *)
Record sel : Type := mkSel { src : string; css : selector }.

Definition tagSel (t : string) : sel := mkSel t [[[Tag t]]].

(** The object [specs]: assignment [specs[key] = value] and the number
    of its keys.  Assigning a string to the key [__proto__] of an
    object literal creates no property. *)
Definition setProp (key value : string) (specs : gmap string string)
  : gmap string string :=
  if String.eqb key "__proto__" then specs else <[key := value]> specs.

Definition keysLength (specs : gmap string string) : nat := size specs.

Record product : Type := mkProduct {
  name : string;
  description : string;
  price : string;
  specifications : gmap string string;
  features : list string;
  url : string
}.

(** [/\\s*[\\-|]\\s*Ubiquiti.*$/i], as the source spells it: a
    backslash, any number of [s], one character of the range from the
    backslash to [|], a backslash, any number of [s], the word
    [Ubiquiti] and the rest of the text. *)
Definition isS (c : ascii) : bool := RegExp.sameLetter "s" c.

Definition titleRegex : list RegExp.pattern :=
  [([RegExp.Chr (Ascii.eqb "\");
     RegExp.Star isS;
     RegExp.Chr (RegExp.rangeI 92 124);
     RegExp.Chr (Ascii.eqb "\");
     RegExp.Star isS]
    ++ RegExp.litI "Ubiquiti"
    ++ [RegExp.Star RegExp.dot; RegExp.Eoi])%list].

Definition nameSelectors : list sel :=
  [ mkSel "h1.product-title" [[[Tag "h1"; Class "product-title"]]];
    mkSel "h1.product-name" [[[Tag "h1"; Class "product-name"]]];
    mkSel "h1.product_title" [[[Tag "h1"; Class "product_title"]]];
    mkSel "h1.product-single__title"
          [[[Tag "h1"; Class "product-single__title"]]];
    tagSel "h1" ].

(** A cascade: the first selector whose extraction is accepted. *)
Fixpoint cascade (try : sel -> option string) (selectors : list sel)
  : option string :=
  match selectors with
  | [] => None
  | selector :: rest =>
      match try selector with
      | Some r => Some r
      | None => cascade try rest
      end
  end.

Definition extractProductName (doc : document) : string :=
  match
    cascade
      (fun selector =>
         let name := JS.trim (text (first (select (css selector) doc))) in
         if JS.truthy name then Some name else None)
      nameSelectors
  with
  | Some name => name
  | None =>
      let title :=
        RegExp.remove titleRegex
          (JS.trim (text (select (css (tagSel "title")) doc))) in
      if JS.truthy title then title else "Unknown Product"
  end.

Definition descriptionSelectors : list sel :=
  [ mkSel ".product-description" [[[Class "product-description"]]];
    mkSel ".product-details__description"
          [[[Class "product-details__description"]]];
    mkSel ".product-single__description"
          [[[Class "product-single__description"]]];
    mkSel ".product__description" [[[Class "product__description"]]];
    mkSel ("meta[name=" ++ String JS.doubleQuote "description"
           ++ String JS.doubleQuote "]")
          [[[Tag "meta"; AttrIs "name" "description"]]] ].

(** [if (x && x.trim()) return x.trim()] for a possibly undefined [x]. *)
Definition acceptTrimmed (x : option string) : option string :=
  match x with
  | Some s => if JS.truthy s && JS.truthy (JS.trim s)
              then Some (JS.trim s) else None
  | None => None
  end.

Definition extractProductDescription (doc : document) : string :=
  match
    cascade
      (fun selector =>
         let desc :=
           if JS.startsWith (src selector) "meta"
           then attr "content" (select (css selector) doc)
           else Some (text (select (css selector) doc)) in
         acceptTrimmed desc)
      descriptionSelectors
  with
  | Some desc => desc
  | None => ""
  end.

Definition priceSelectors : list sel :=
  [ mkSel ".product-price" [[[Class "product-price"]]];
    mkSel ".price" [[[Class "price"]]];
    mkSel ".product__price" [[[Class "product__price"]]];
    mkSel ("meta[property=" ++ String JS.doubleQuote "product:price:amount"
           ++ String JS.doubleQuote "]")
          [[[Tag "meta"; AttrIs "property" "product:price:amount"]]];
    mkSel "[data-product-price]" [[[HasAttr "data-product-price"]]] ].

Definition extractProductPrice (doc : document) : string :=
  match
    cascade
      (fun selector =>
         let price :=
           if JS.startsWith (src selector) "meta"
           then attr "content" (select (css selector) doc)
           else Some (text (first (select (css selector) doc))) in
         acceptTrimmed price)
      priceSelectors
  with
  | Some price => price
  | None => "Price not available"
  end.

Definition specSelectors : list sel :=
  [ mkSel ".product-specifications table"
          [[[Class "product-specifications"]; [Tag "table"]]];
    mkSel ".specifications table" [[[Class "specifications"]; [Tag "table"]]];
    mkSel ".product-specs table" [[[Class "product-specs"]; [Tag "table"]]];
    mkSel ".specs-table" [[[Class "specs-table"]]];
    mkSel "table.specifications" [[[Tag "table"; Class "specifications"]]] ].

Definition cellSel : sel := mkSel "td, th" [[[Tag "td"]]; [[Tag "th"]]].

(** The body of [$table.find('tr').each(...)]. *)
Definition addRow (specs : gmap string string) (row : elem)
  : gmap string string :=
  let cells := find (css cellSel) [row] in
  if (2 <=? length cells)%nat then
    let key := JS.trim (text (at_ 0 cells)) in
    let value := JS.trim (text (at_ 1 cells)) in
    if JS.truthy key && JS.truthy value then setProp key value specs
    else specs
  else specs.

(** The loop over [specSelectors]: [inl] is the value returned from
    inside the loop, [inr] the [specs] object the loop ends with. *)
Fixpoint tableLoop (doc : document) (selectors : list sel)
    (specs : gmap string string)
  : gmap string string + gmap string string :=
  match selectors with
  | [] => inr specs
  | selector :: rest =>
      let table := select (css selector) doc in
      if (0 <? length table)%nat then
        let specs' := foldl addRow specs (find (css (tagSel "tr")) table) in
        if (0 <? keysLength specs')%nat then inl specs'
        else tableLoop doc rest specs'
      else tableLoop doc rest specs
  end.

(** [$sel.each((j, x) => ...)] threading the state. *)
Fixpoint eachi {S : Type} (f : S -> nat -> elem -> S) (j : nat) (s : S)
    (l : list elem) : S :=
  match l with
  | [] => s
  | x :: l' => eachi f (Datatypes.S j) (f s j x) l'
  end.

(** The body of [$('dl').each(...)]. *)
Definition addList (specs : gmap string string) (list : elem)
  : gmap string string :=
  let terms := find (css (tagSel "dt")) [list] in
  let defs := find (css (tagSel "dd")) [list] in
  eachi
    (fun specs j term =>
       let key := JS.trim (text [term]) in
       let value := JS.trim (text (at_ j defs)) in
       if JS.truthy key && JS.truthy value then setProp key value specs
       else specs)
    0%nat specs terms.

Definition extractProductSpecifications (doc : document)
  : gmap string string :=
  match tableLoop doc specSelectors ∅ with
  | inl specs => specs
  | inr specs => foldl addList specs (select (css (tagSel "dl")) doc)
  end.

Definition featureSelectors : list sel :=
  [ mkSel ".product-features ul li"
          [[[Class "product-features"]; [Tag "ul"]; [Tag "li"]]];
    mkSel ".features ul li" [[[Class "features"]; [Tag "ul"]; [Tag "li"]]];
    mkSel ".product-highlights li"
          [[[Class "product-highlights"]; [Tag "li"]]];
    mkSel ".key-features li" [[[Class "key-features"]; [Tag "li"]]] ].

Definition addFeature (features : list string) (feature : elem)
  : list string :=
  let text := JS.trim (text [feature]) in
  if JS.truthy text then (features ++ [text])%list else features.

Fixpoint featureLoop (doc : document) (selectors : list sel)
    (features : list string) : list string :=
  match selectors with
  | [] => features
  | selector :: rest =>
      let found := select (css selector) doc in
      if (0 <? length found)%nat then
        let features' := foldl addFeature features found in
        if (0 <? length features')%nat then features'
        else featureLoop doc rest features'
      else featureLoop doc rest features
  end.

Definition extractProductFeatures (doc : document) : list string :=
  featureLoop doc featureSelectors [].

Definition extractProductInfo (doc : document) (url : string) : product :=
  {| name := extractProductName doc;
     description := extractProductDescription doc;
     price := extractProductPrice doc;
     specifications := extractProductSpecifications doc;
     features := extractProductFeatures doc;
     url := url |}.

End ProductParser.

(** ** config.js and crawler.js *)

Module Crawler.

Record patterns : Type := mkPatterns {
  include : list string;
  exclude : list string
}.

Record config : Type := mkConfig {
  baseUrl : string;
  maxPages : nat;
  categories : list string;
  urlPatterns : patterns
}.

Definition defaultConfig : config :=
  {| baseUrl := "https://store.ui.com/us/";
     maxPages := 1000;
     categories :=
       ["Networks"; "Protect"; "Access"; "Talk"; "Connect"; "Cameras";
        "Door Access"; "Accessories"; "Sensors"; "Antennas"];
     urlPatterns :=
       {| include := ["/us/products/"; "/us/collections/"];
          exclude := ["/cart"; "/account"; "/search"; "/pages/"; "/policies/"]
       |} |}.

(** The fields of [UbiquitiCrawler] that the crawl reads and writes:
    two sets and the queue. *)
Record crawler : Type := mkCrawler {
  visitedUrls : list string;
  productUrls : list string;
  urlsToVisit : list string
}.

Definition newCrawler : crawler := mkCrawler [] [] [].

(** [array.includes(x)] *)
Definition arrayIncludes (x : string) (a : list string) : bool :=
  bool_decide (x ∈ a).

(** The body of the loop [for (const link of links)] of [processPage]. *)
Definition processLink (cfg : config) (st : crawler) (link : string)
  : crawler :=
  if negb (JS.startsWith link (baseUrl cfg)) then st
  else if existsb (fun pattern => JS.includes link pattern)
                  (exclude (urlPatterns cfg)) then st
  else if JS.includes link "/products/" then
    mkCrawler (visitedUrls st) (JS.setAdd link (productUrls st))
              (urlsToVisit st)
  else if existsb (fun pattern => JS.includes link pattern)
                  (include (urlPatterns cfg)) then
    if negb (JS.setHas link (visitedUrls st))
       && negb (arrayIncludes link (urlsToVisit st))
    then mkCrawler (visitedUrls st) (productUrls st)
                   (urlsToVisit st ++ [link])%list
    else st
  else st.

(** What a run does, step by step; the log pairs every step with the
    state of the crawler right after it. *)
Inductive event : Type :=
| Seed (url : string)               (* urlsToVisit.push(config.baseUrl) *)
| Shift (url : string)              (* url = urlsToVisit.shift() *)
| Skip (url : string)               (* continue: url was visited before *)
| Visit (url : string)              (* visitedUrls.add(url) *)
| Fetch (url : string) (ok : bool)  (* processPage(url) loads the page *)
| Link (link : string)              (* one turn of the loop over links *)
| Delay.                            (* the awaited setTimeout *)

Definition entry : Type := event * crawler.

Fixpoint processLinks (cfg : config) (st : crawler) (links : list string)
  : crawler * list entry :=
  match links with
  | [] => (st, [])
  | link :: rest =>
      let st' := processLink cfg st link in
      let r := processLinks cfg st' rest in
      (fst r, (Link link, st') :: snd r)
  end.

(** [processPage(url)].  [fetch n url] is what the browser gives for
    the page loaded after [n] pages were processed: the [href]s of its
    anchors, or [None] when loading throws, which [processPage] catches
    before any link is looked at. *)
Definition processPage (cfg : config)
    (fetch : nat -> string -> option (list string))
    (pageCount : nat) (st : crawler) (url : string)
  : crawler * list entry :=
  match fetch pageCount url with
  | Some links =>
      let r := processLinks cfg st links in
      (fst r, (Fetch url true, st) :: snd r)
  | None => (st, [(Fetch url false, st)])
  end.

(** The [while] loop of [start]; the result is the crawler it leaves
    and the log of every turn of the loop. *)
Equations? crawlLoop (cfg : config)
    (fetch : nat -> string -> option (list string))
    (st : crawler) (pageCount : nat) : crawler * list (list entry)
    by wf (maxPages cfg - pageCount, length (urlsToVisit st))%nat
          (Subterm.lexprod nat nat lt lt) :=
crawlLoop cfg fetch (mkCrawler visited products []) pageCount :=
  (mkCrawler visited products [], []);
crawlLoop cfg fetch (mkCrawler visited products (url :: queue)) pageCount
  with lt_dec pageCount (maxPages cfg) := {
  | right _ => (mkCrawler visited products (url :: queue), []);
  | left _ with JS.setHas url visited := {
    | true =>
        let st1 := mkCrawler visited products queue in
        let r := crawlLoop cfg fetch st1 pageCount in
        (fst r, [(Shift url, st1); (Skip url, st1)] :: snd r);
    | false =>
        let st1 := mkCrawler visited products queue in
        let st2 := mkCrawler (JS.setAdd url visited) products queue in
        let p := processPage cfg fetch pageCount st2 url in
        let r := crawlLoop cfg fetch (fst p) (S pageCount) in
        (fst r,
         ([(Shift url, st1); (Visit url, st2)] ++ snd p
          ++ [(Delay, fst p)])%list :: snd r) } }.
Proof.
  all: first [ apply Subterm.left_lex; lia
             | apply Subterm.right_lex; simpl; lia ].
Defined.

(** [start()]: the seed, the loop, and the product pages handed to
    [processProductPage], one call for each element of the array
    [[...this.productUrls]]. *)
Record run : Type := mkRun {
  seeded : crawler;
  iterations : list (list entry);
  final : crawler;
  productPages : list string
}.

Definition start (cfg : config)
    (fetch : nat -> string -> option (list string)) (st : crawler) : run :=
  let st0 :=
    mkCrawler (visitedUrls st) (productUrls st)
              (urlsToVisit st ++ [baseUrl cfg])%list in
  let r := crawlLoop cfg fetch st0 0 in
  {| seeded := st0;
     iterations := snd r;
     final := fst r;
     productPages := productUrls (fst r) |}.

Definition trace (cfg : config) (r : run) : list entry :=
  (Seed (baseUrl cfg), seeded r) :: concat (iterations r).

End Crawler.

(** ** Reference definitions and observations

    What the properties below are stated with: the classifier as a
    reference definition, the link rule of the crawler as a relation,
    the specification extraction by entries, and the readings of a
    crawl log. *)

Module Spec.

Import Crawler.

(** *** Category Classifier *)

(** Title case: the first letter of every hyphen-delimited word in
    upper case, the words joined with spaces. *)
Fixpoint titleCaseFrom (wordStart : bool) (s : string) : string :=
  match s with
  | EmptyString => EmptyString
  | String c s' =>
      if Ascii.eqb c "-" then String " " (titleCaseFrom true s')
      else String (if wordStart then JS.upperChar c else c)
                  (titleCaseFrom false s')
  end.

Definition titleCase (s : string) : string := titleCaseFrom true s.

(** [p] occurs in [s] when the case of letters is ignored. *)
Fixpoint ciPrefix (p s : string) : bool :=
  match p, s with
  | EmptyString, _ => true
  | String a p', String b s' =>
      Ascii.eqb (JS.lowerChar a) (JS.lowerChar b) && ciPrefix p' s'
  | String _ _, EmptyString => false
  end.

Fixpoint ciSubstring (p s : string) : bool :=
  ciPrefix p s ||
  match s with
  | EmptyString => false
  | String _ s' => ciSubstring p s'
  end.

Definition categoryByName (productName : string) (categories : list string)
  : string :=
  match List.find (fun category => ciSubstring category productName)
                  categories with
  | Some category => category
  | None => "Other"
  end.

(** The segment after a [collections] segment, when it is not empty:
    looking at every [collections] segment of the URL ... *)
Fixpoint slugAfterSomeCollections (segs : list string) : option string :=
  match segs with
  | [] => None
  | seg :: rest =>
      match rest with
      | next :: _ =>
          if String.eqb seg "collections" && JS.truthy next then Some next
          else slugAfterSomeCollections rest
      | [] => None
      end
  end.

(** ... or at the first [collections] segment only. *)
Fixpoint slugAfterFirstCollections (segs : list string) : option string :=
  match segs with
  | [] => None
  | seg :: rest =>
      if String.eqb seg "collections" then
        match rest with
        | next :: _ => if JS.truthy next then Some next else None
        | [] => None
        end
      else slugAfterFirstCollections rest
  end.

(** The function mapped over the words by [determineCategory]. *)
Definition capitalize (word : string) : string :=
  JS.toUpperCase (JS.charAt0 word) ++ JS.slice1 word.

Definition classifyBy (slug : list string -> option string)
    (productName url : string) (categories : list string) : string :=
  match slug (JS.split "/" url) with
  | Some s => titleCase s
  | None => categoryByName productName categories
  end.

Definition classifySome := classifyBy slugAfterSomeCollections.
Definition classifyFirst := classifyBy slugAfterFirstCollections.

(** *** Link Extractor *)


(** The attribute value [raw] passes the extension test of
    [extractLinks] and resolves to [u]. *)
Definition accepted (newURL : string -> string -> option string)
    (fileExtensions : list string) (baseUrl : string) (raw u : string)
  : Prop :=
  (exists ext, ext ∈ fileExtensions
               /\ JS.endsWith (JS.toLowerCase raw) ext = true)
  /\ newURL raw baseUrl = Some u.

(** [raw] is written in [html] as the value of an [href] or [src]
    attribute: between two quotes, not empty and without a quote. *)
Fixpoint allChars (p : ascii -> bool) (s : string) : bool :=
  match s with
  | EmptyString => true
  | String c s' => p c && allChars p s'
  end.

Definition attributeValue (html raw : string) : Prop :=
  exists before name q1 q2 after,
    html = before ++ name ++ String q1 (raw ++ String q2 after)
    /\ (name = "href=" \/ name = "src=")
    /\ RegExp.isQuote q1 = true /\ RegExp.isQuote q2 = true
    /\ raw <> ""
    /\ allChars (fun c => negb (RegExp.isQuote c)) raw = true.

(** *** Crawler *)

Definition excluded (cfg : config) (link : string) : Prop :=
  exists pattern,
    In pattern (exclude (urlPatterns cfg)) /\ JS.includes link pattern = true.

Definition included (cfg : config) (link : string) : Prop :=
  exists pattern,
    In pattern (include (urlPatterns cfg)) /\ JS.includes link pattern = true.

Definition isProduct (link : string) : Prop :=
  JS.includes link "/products/" = true.

(** The filters in their order; each rule gives the crawler after the
    link. *)
Inductive linkRule (cfg : config) (st : crawler) (link : string)
  : crawler -> Prop :=
| ruleExternal :
    JS.startsWith link (baseUrl cfg) = false ->
    linkRule cfg st link st
| ruleExcluded :
    JS.startsWith link (baseUrl cfg) = true ->
    excluded cfg link ->
    linkRule cfg st link st
| ruleProduct :
    JS.startsWith link (baseUrl cfg) = true ->
    ~ excluded cfg link ->
    isProduct link ->
    linkRule cfg st link
      (mkCrawler (visitedUrls st) (JS.setAdd link (productUrls st))
                 (urlsToVisit st))
| ruleQueue :
    JS.startsWith link (baseUrl cfg) = true ->
    ~ excluded cfg link ->
    ~ isProduct link ->
    included cfg link ->
    ~ In link (visitedUrls st) ->
    ~ In link (urlsToVisit st) ->
    linkRule cfg st link
      (mkCrawler (visitedUrls st) (productUrls st)
                 (urlsToVisit st ++ [link])%list)
| ruleKeep :
    JS.startsWith link (baseUrl cfg) = true ->
    ~ excluded cfg link ->
    ~ isProduct link ->
    ~ (included cfg link /\ ~ In link (visitedUrls st)
       /\ ~ In link (urlsToVisit st)) ->
    linkRule cfg st link st.

(** A link that the crawler takes for a product page. *)
Definition isProductLink (cfg : config) (link : string) : bool :=
  JS.startsWith link (baseUrl cfg)
  && negb (existsb (fun pattern => JS.includes link pattern)
                   (exclude (urlPatterns cfg)))
  && JS.includes link "/products/".

Definition events (log : list entry) : list event := map fst log.

(** The crawl pages fetched, in order. *)
Fixpoint fetched (log : list entry) : list string :=
  match log with
  | [] => []
  | (Fetch url _, _) :: rest => url :: fetched rest
  | _ :: rest => fetched rest
  end.

(** The links looked at, in order, and the product links among them. *)
Fixpoint links (log : list entry) : list string :=
  match log with
  | [] => []
  | (Link link, _) :: rest => link :: links rest
  | _ :: rest => links rest
  end.

Definition discovered (cfg : config) (log : list entry) : list string :=
  List.filter (isProductLink cfg) (links log).

(** The frontier after every step. *)
Definition frontiers (log : list entry) : list (list string) :=
  map (fun e => urlsToVisit (snd e)) log.

(** A turn of the loop ends with the delay. *)
Definition endsWithDelay (turn : list entry) : bool :=
  match last (events turn) with
  | Some Delay => true
  | _ => false
  end.


(** The frontier holds distinct URLs that were not visited. *)
Definition unvisitedFrontier (st : crawler) : Prop :=
  NoDup (urlsToVisit st)
  /\ forall url, url ∈ urlsToVisit st -> url ∉ visitedUrls st.


(** A store of four pages: the home page and a collection both link to
    the same product. *)
Definition smallStore (n : nat) (url : string) : option (list string) :=
  if String.eqb url "https://store.ui.com/us/" then
    Some ["https://store.ui.com/us/collections/cameras";
          "https://store.ui.com/us/products/widget";
          "https://store.ui.com/us/cart"]
  else if String.eqb url "https://store.ui.com/us/collections/cameras" then
    Some ["https://store.ui.com/us/products/widget";
          "https://store.ui.com/us/"]
  else None.

(** *** Product Parser *)

Import Dom ProductParser.

(** The key and value of a table row: the text of the first two cells
    that [find] gives from the row, at any depth below it, when both
    are there and neither is empty. *)
Definition rowEntry (row : elem) : option (string * string) :=
  match find (css cellSel) [row] with
  | k :: v :: _ =>
      let key := JS.trim (textContent (self k)) in
      let value := JS.trim (textContent (self v)) in
      if String.eqb key "" || String.eqb value "" then None
      else Some (key, value)
  | _ => None
  end.

Definition putEntry (specs : gmap string string)
    (e : option (string * string)) : gmap string string :=
  match e with
  | Some (key, value) => setProp key value specs
  | None => specs
  end.

(** The entries of the tables of one selector. *)
Definition tableEntries (doc : document) (selector : sel)
  : gmap string string :=
  foldl putEntry ∅
        (map rowEntry (find (css (tagSel "tr")) (select (css selector) doc))).

(** The i-th term that [find] gives from a list, at any depth below it,
    with the i-th definition it gives. *)
Definition pairEntry (p : elem * elem) : option (string * string) :=
  let key := JS.trim (textContent (self (fst p))) in
  let value := JS.trim (textContent (self (snd p))) in
  if String.eqb key "" || String.eqb value "" then None
  else Some (key, value).

Definition listPairs (dl : elem) : list (elem * elem) :=
  combine (find (css (tagSel "dt")) [dl]) (find (css (tagSel "dd")) [dl]).

Definition listEntries (doc : document) : gmap string string :=
  foldl putEntry ∅
        (map pairEntry (flat_map listPairs (select (css (tagSel "dl")) doc))).

Definition specificationsRef (doc : document) : gmap string string :=
  match
    List.find (fun selector => negb (bool_decide (tableEntries doc selector = ∅)))
              specSelectors
  with
  | Some selector => tableEntries doc selector
  | None => listEntries doc
  end.

(** Example documents. *)
Definition cell (s : string) : node := Element "td" [] [Text s].

Definition tableRow (k v : string) : node := Element "tr" [] [cell k; cell v].

Definition page (head body : list node) : document :=
  [Element "html" [] [Element "head" [] head; Element "body" [] body]].

Definition specTablePage : document :=
  page []
    [Element "div" [("class", "specifications")]
       [Element "table" []
          [Element "tbody" []
             [tableRow "Key1" "Val1"; tableRow "" ""; tableRow "Key2" "Val2"]]]].

Definition titleOnlyPage : document :=
  page [Element "title" [] [Text "Widget - Ubiquiti Store"]] [].

(** No selector of any cascade matches an element of [doc]. *)
Definition noSelectorMatches (doc : document) : Prop :=
  forall s,
    In s (nameSelectors ++ descriptionSelectors ++ priceSelectors
          ++ specSelectors ++ featureSelectors ++ [tagSel "dl"])%list ->
    select (css s) doc = [].

(** *** Two readings of the specification extraction *)

Definition hasTag (tags : list string) (n : node) : bool :=
  match n with
  | Element tag _ _ => existsb (String.eqb tag) tags
  | Text _ | Comment _ => false
  end.

Definition childNodes (n : node) : list node :=
  match n with
  | Element _ _ kids => kids
  | Text _ | Comment _ => []
  end.

(** The elements with one of [tags] that [n] has itself, as children,
    ... *)
Definition own (tags : list string) (n : node) : list node :=
  List.filter (hasTag tags) (childNodes n).

(** ... and those at any depth below [n], in document order. *)
Fixpoint below (tags : list string) (n : node) : list node :=
  match n with
  | Element _ _ kids =>
      flat_map (fun k => if hasTag tags k then k :: below tags k
                         else below tags k)
               kids
  | Text _ | Comment _ => []
  end.

(** The entry of a key cell and a value cell: their trimmed texts, when
    neither is empty. *)
Definition entryOf (k v : node) : option (string * string) :=
  let key := JS.trim (textContent k) in
  let value := JS.trim (textContent v) in
  if String.eqb key "" || String.eqb value "" then None else Some (key, value).

(** The extraction read entry by entry, for a way to find the cells of
    a row and the terms and definitions of a list, and a way to store
    an entry: every row gives the entry of its first two cells, every
    list the entries of its i-th term and i-th definition; the result
    is what the first table selector with an entry gives, else what the
    lists give. *)
Section Reading.

Variable cells terms defs : node -> list node.
Variable put : gmap string string -> option (string * string)
               -> gmap string string.

Definition rowEntryBy (row : elem) : option (string * string) :=
  match cells (self row) with
  | k :: v :: _ => entryOf k v
  | _ => None
  end.

Definition listEntriesBy (dl : elem) : list (option (string * string)) :=
  map (fun p => entryOf (fst p) (snd p))
      (combine (terms (self dl)) (defs (self dl))).

Definition tableEntriesBy (doc : document) (selector : sel)
  : gmap string string :=
  foldl put ∅
        (map rowEntryBy (find (css (tagSel "tr")) (select (css selector) doc))).

Definition dlEntriesBy (doc : document) : gmap string string :=
  foldl put ∅ (flat_map listEntriesBy (select (css (tagSel "dl")) doc)).

Definition specificationsBy (doc : document) : gmap string string :=
  match
    List.find
      (fun selector => negb (bool_decide (tableEntriesBy doc selector = ∅)))
      specSelectors
  with
  | Some selector => tableEntriesBy doc selector
  | None => dlEntriesBy doc
  end.

End Reading.

Definition cellTags : list string := ["td"; "th"].

(** Storing an entry in a map, whatever its key. *)
Definition putPlain (specs : gmap string string)
    (e : option (string * string)) : gmap string string :=
  match e with
  | Some (key, value) => <[key := value]> specs
  | None => specs
  end.

(** The first reading: the cells of a row are its own [td] and [th]
    elements, the terms and definitions of a list its own [dt] and [dd]
    elements, and every entry is stored. *)
Definition specificationsOwn : document -> gmap string string :=
  specificationsBy (own cellTags) (own ["dt"]) (own ["dd"]) putPlain.

(** The second reading: the cells of a row are the [td] and [th]
    elements at any depth below it, those of tables nested in the row
    included, likewise the [dt] and [dd] elements of a list, and
    nothing is stored for the key [__proto__]. *)
Definition specificationsBelow : document -> gmap string string :=
  specificationsBy (below cellTags) (below ["dt"]) (below ["dd"]) putEntry.

(** Markup on which the two readings agree: no child of a row of a
    specification table has a cell below it, no child of a list a term
    or a definition below it, and no key is [__proto__]. *)
Definition rowsOf (doc : document) : list elem :=
  flat_map
    (fun selector => find (css (tagSel "tr")) (select (css selector) doc))
    specSelectors.

Definition noneDeeper (tags : list string) (n : node) : bool :=
  forallb (fun k => match below tags k with [] => true | _ :: _ => false end)
          (childNodes n).

Definition plainKey (e : option (string * string)) : bool :=
  match e with
  | Some (key, _) => negb (String.eqb key "__proto__")
  | None => true
  end.

Definition plainMarkup (doc : document) : bool :=
  forallb (fun row => noneDeeper cellTags (self row)
                      && plainKey (rowEntryBy (own cellTags) row))
          (rowsOf doc)
  && forallb (fun dl => noneDeeper ["dt"] (self dl)
                        && noneDeeper ["dd"] (self dl)
                        && forallb plainKey
                             (listEntriesBy (own ["dt"]) (own ["dd"]) dl))
             (select (css (tagSel "dl")) doc).

(** A specification table whose first cell holds a table of its own. *)
Definition nestedTablePage : document :=
  page []
    [Element "table" [("class", "specs-table")]
       [Element "tbody" []
          [Element "tr" []
             [Element "td" []
                [Text "Ports";
                 Element "table" []
                   [Element "tbody" [] [tableRow "LAN" "4"]]];
              cell "5"]]]].

End Spec.

(** ** Further functions of the sources *)

(** *** utils.js: sanitizeName *)

(** [s.replace(re, repl)] with the g flag, for a regular expression
    whose matches are never empty: every turn resumes after the
    previous match, and [String.length s] turns are always enough. *)
Fixpoint replaceLoop (alts : list RegExp.pattern) (repl : string)
    (fuel : nat) (s : string) : string :=
  match fuel with
  | O => s
  | S fuel' =>
      match RegExp.exec alts s with
      | Some (before, _, rest) =>
          before ++ repl ++ replaceLoop alts repl fuel' rest
      | None => s
      end
  end.

Definition replaceAll (alts : list RegExp.pattern) (repl s : string)
  : string :=
  replaceLoop alts repl (S (String.length s)) s.

(** The regular expression of [sanitizeName] as utils.js spells it, with
    two backslashes before [s+]: a backslash followed by one or more
    [s]. *)
Definition backslashS : list RegExp.pattern :=
  [[RegExp.Chr (Ascii.eqb "\");
    RegExp.Chr (Ascii.eqb "s");
    RegExp.Star (Ascii.eqb "s")]].

Section SanitizeName.

(** The function exported by the package [sanitize-filename]. *)
Variable sanitize : string -> string.

Definition sanitizeName (name : string) : string :=
  replaceAll backslashS "_" (sanitize (JS.trim name)).

End SanitizeName.

(** *** product-parser.js: toMarkdown *)

Module Render.

Import ProductParser.

(** The line feed. *)
Definition nl : string := String (ascii_of_N 10) EmptyString.

Section ToMarkdown.

(** [Object.entries(specs)]: the pairs of the object, in the order in
    which JavaScript lists its keys. *)
Variable entries : gmap string string -> list (string * string).

Definition featureLine (markdown feature : string) : string :=
  markdown ++ "- " ++ feature ++ nl.

Definition specLine (markdown : string) (kv : string * string) : string :=
  markdown ++ "- **" ++ fst kv ++ "**: " ++ snd kv ++ nl.

Definition toMarkdown (product : product) : string :=
  let markdown := "# " ++ name product ++ nl ++ nl in
  let markdown :=
    if JS.truthy (price product)
       && negb (String.eqb (price product) "Price not available")
    then markdown ++ "**Price**: " ++ price product ++ nl ++ nl
    else markdown in
  let markdown :=
    if JS.truthy (description product)
    then markdown ++ "## Description" ++ nl ++ nl ++ description product
         ++ nl ++ nl
    else markdown in
  let markdown :=
    if (0 <? length (features product))%nat
    then foldl featureLine (markdown ++ "## Features" ++ nl ++ nl)
               (features product) ++ nl
    else markdown in
  let markdown :=
    if (0 <? keysLength (specifications product))%nat
    then foldl specLine (markdown ++ "## Specifications" ++ nl ++ nl)
               (entries (specifications product)) ++ nl
    else markdown in
  markdown ++ "**Product URL**: " ++ url product ++ nl.

End ToMarkdown.

End Render.

(** *** crawler.js: the files of a product page *)

Module Media.

(** A number in a template string. *)
Definition decimal (n : nat) : string :=
  NilEmpty.string_of_uint (Nat.to_uint n).

Section Downloads.

(** [path.extname] *)
Variable extname : string -> string.

(** The loops [for (let i = 0; i < links.length; i++)] of
    [processProductPage]: every link with the name of its file,
    [kind_N.ext]. *)
Fixpoint downloadsFrom (kind : string) (i : nat) (links : list string)
  : list (string * string) :=
  match links with
  | [] => []
  | url :: rest =>
      (url, kind ++ "_" ++ decimal (i + 1) ++ extname url)
      :: downloadsFrom kind (S i) rest
  end.

Definition imageDownloads (imageLinks : list string) :=
  downloadsFrom "image" 0 imageLinks.

Definition videoDownloads (videoLinks : list string) :=
  downloadsFrom "video" 0 videoLinks.

Definition pdfDownloads (pdfLinks : list string) :=
  downloadsFrom "document" 0 pdfLinks.

End Downloads.

(** An extension function for the examples: the text from the last dot
    of the last path segment, when that dot is not its first
    character. *)
Fixpoint afterLast (sep : ascii) (s : string) : option string :=
  match s with
  | EmptyString => None
  | String c s' =>
      match afterLast sep s' with
      | Some r => Some r
      | None => if Ascii.eqb c sep then Some s' else None
      end
  end.

Definition lastDotExt (path : string) : string :=
  let base := match afterLast "/" path with Some b => b | None => path end in
  match base with
  | EmptyString => EmptyString
  | String _ base' =>
      match afterLast "." base' with
      | Some e => String "." e
      | None => EmptyString
      end
  end.

End Media.

(** *** Further reference definitions *)

Module More.

Import Crawler Spec Dom ProductParser.

(** A link the crawler may queue: inside the site, not excluded, no
    product page, and with an include pattern. *)
Definition crawlable (cfg : config) (link : string) : Prop :=
  JS.startsWith link (baseUrl cfg) = true
  /\ ~ excluded cfg link
  /\ ~ isProduct link
  /\ included cfg link.

(** The states of a log. *)
Definition states (log : list entry) : list crawler := map snd log.

(** [ext] has an upper-case letter. *)
Definition hasUpper (ext : string) : bool :=
  existsb JS.isUpper (list_ascii_of_string ext).

Definition noBackslash (c : ascii) : bool := negb (Ascii.eqb "\" c).

Definition noHyphen (c : ascii) : bool := negb (Ascii.eqb c "-").

Definition isDigit (c : ascii) : bool :=
  ((48 <=? JS.code c) && (JS.code c <=? 57))%N.

(** [s] is an extension, or nothing. *)
Definition dotted (s : string) : Prop :=
  s = "" \/ exists e, s = String "." e.

(** The non-empty trimmed texts of the elements of one selector. *)
Definition featureTexts (doc : document) (selector : sel) : list string :=
  List.filter JS.truthy
    (map (fun e => JS.trim (textContent (self e))) (select (css selector) doc)).

Definition featuresRef (doc : document) : list string :=
  match
    List.find (fun selector => (0 <? length (featureTexts doc selector))%nat)
              featureSelectors
  with
  | Some selector => featureTexts doc selector
  | None => []
  end.

(** A page with two feature lists and a row whose key is [__proto__]. *)
Definition featurePage : document :=
  page []
    [Element "div" [("class", "product-features")]
       [Element "ul" []
          [Element "li" [] [Text "  "];
           Element "li" [] [Text " PoE powered "]]];
     Element "div" [("class", "key-features")]
       [Element "li" [] [Text "Weatherproof"]];
     Element "table" [("class", "specs-table")]
       [tableRow "__proto__" "x"]].

(** Three image links, two of them with the same file name. *)
Definition sampleImages : list string :=
  ["https://cdn.ui.com/a/front.png"; "https://cdn.ui.com/b/front.png";
   "https://cdn.ui.com/c/side.jpg"].

(** The configuration with a page cap of one, and the crawler that two
    runs of [start] on [smallStore] leave behind. *)
Definition onePage : config :=
  {| baseUrl := baseUrl defaultConfig;
     maxPages := 1;
     categories := categories defaultConfig;
     urlPatterns := urlPatterns defaultConfig |}.

Definition ranTwice : crawler :=
  final (start onePage smallStore
           (final (start onePage smallStore newCrawler))).

(** A character of the ASCII range. *)
Definition isAscii (c : ascii) : bool := (JS.code c <? 128)%N.

End More.

(** * Properties *)

(** ** Category Classifier *)

Section Classifier.

Import Spec.

Lemma startsWith_lower s p :
  JS.startsWith (JS.toLowerCase s) (JS.toLowerCase p) = ciPrefix p s.
Proof.
  revert s. induction p as [|a p IH]; intros [|b s]; simpl; try reflexivity.
  now rewrite IH.
Qed.

Lemma includes_lower s p :
  JS.includes (JS.toLowerCase s) (JS.toLowerCase p) = ciSubstring p s.
Proof.
  induction s as [|b s IH].
  - cbn [JS.includes ciSubstring]. now rewrite <- (startsWith_lower "" p).
  - change (JS.toLowerCase (String b s))
      with (String (JS.lowerChar b) (JS.toLowerCase s)).
    cbn [JS.includes ciSubstring]. rewrite IH.
    now rewrite <- (startsWith_lower (String b s) p).
Qed.

Lemma find_ext {A : Type} (f g : A -> bool) (l : list A) :
  (forall x, f x = g x) -> List.find f l = List.find g l.
Proof.
  intros E. induction l as [|x l IH]; simpl; [reflexivity|].
  now rewrite E, IH.
Qed.

Lemma byName_ref productName categories :
  match
    List.find
      (fun category =>
         JS.includes (JS.toLowerCase productName) (JS.toLowerCase category))
      categories
  with
  | Some category => category
  | None => "Other"
  end = categoryByName productName categories.
Proof.
  unfold categoryByName.
  now rewrite (find_ext _ (fun category => ciSubstring category productName))
    by (intros; apply includes_lower).
Qed.

Lemma split_cons sep s : exists w ws, JS.split sep s = w :: ws.
Proof.
  induction s as [|c s (w & ws & E)]; simpl; [now eauto|].
  destruct (Ascii.eqb c sep); [now eauto|]. rewrite E. now eauto.
Qed.

Lemma join_cons_char sep a w l :
  JS.join sep (String a w :: l) = String a (JS.join sep (w :: l)).
Proof. destruct l; reflexivity. Qed.

Lemma capitalize_cons c w : capitalize (String c w) = String (JS.upperChar c) w.
Proof. reflexivity. Qed.

(** Splitting on hyphens, capitalising and joining is [titleCase]; the
    second half is what holds inside a word. *)
Lemma titleCase_split s :
  titleCaseFrom true s = JS.join " " (map capitalize (JS.split "-" s))
  /\ forall w ws, JS.split "-" s = w :: ws ->
       titleCaseFrom false s = JS.join " " (w :: map capitalize ws).
Proof.
  induction s as [|c s [IHt IHf]].
  - split; [reflexivity|]. simpl. now intros w ws [= <- <-].
  - destruct (split_cons "-" s) as (w0 & ws0 & E).
    cbn [titleCaseFrom JS.split]. destruct (Ascii.eqb c "-") eqn:Ec.
    + split.
      * rewrite IHt, E. reflexivity.
      * intros w ws [= <- <-]. rewrite IHt, E. reflexivity.
    + rewrite E. split.
      * cbn [map]. rewrite capitalize_cons, join_cons_char.
        now rewrite (IHf _ _ E).
      * intros w ws [= <- <-]. rewrite join_cons_char.
        now rewrite (IHf _ _ E).
Qed.

Lemma indexOf_range x parts :
  JS.indexOf x parts = -1
  \/ 0 <= JS.indexOf x parts < Z.of_nat (length parts).
Proof.
  induction parts as [|y ys IH]; [now left|].
  cbn [JS.indexOf length]. destruct (String.eqb y x); [right; lia|].
  destruct IH as [-> | IH]; [now left|].
  destruct (JS.indexOf x ys =? -1) eqn:E; [now left|]. right. lia.
Qed.

(** [indexOf], the bound test and the indexing of the source find the
    segment after the first [collections] segment. *)
Lemma slugAfterFirst_indexOf parts :
  slugAfterFirstCollections parts =
  let i := JS.indexOf "collections" parts in
  if negb (i =? -1) && (i + 1 <? Z.of_nat (length parts)) then
    let seg := nth (Z.to_nat (i + 1)) parts "" in
    if JS.truthy seg && negb (String.eqb seg "") then Some seg else None
  else None.
Proof.
  induction parts as [|y ys IH]; [reflexivity|].
  cbn [slugAfterFirstCollections JS.indexOf]. cbv zeta in *.
  destruct (String.eqb y "collections").
  - cbn [negb andb Z.eqb]. destruct ys as [|next ys'].
    + reflexivity.
    + replace (0 + 1 <? Z.of_nat (length (y :: next :: ys'))) with true
        by (symmetry; apply Z.ltb_lt; cbn [length]; lia).
      change (Z.to_nat (0 + 1)) with 1%nat. cbn [nth].
      unfold JS.truthy. now destruct (String.eqb next "").
  - rewrite IH. clear IH.
    destruct (indexOf_range "collections" ys) as [E | R].
    + rewrite E. reflexivity.
    + set (i := JS.indexOf "collections" ys) in *.
      replace (i =? -1) with false by (symmetry; apply Z.eqb_neq; lia).
      replace (i + 1 =? -1) with false by (symmetry; apply Z.eqb_neq; lia).
      cbn [negb andb].
      replace (i + 1 + 1 <? Z.of_nat (length (y :: ys)))
        with (i + 1 <? Z.of_nat (length ys))
        by (cbn [length]; destruct (Z.ltb_spec (i + 1) (Z.of_nat (length ys)));
            symmetry; [apply Z.ltb_lt | apply Z.ltb_ge]; lia).
      replace (Z.to_nat (i + 1 + 1)) with (S (Z.to_nat (i + 1))) by lia.
      reflexivity.
Qed.

(** C2, as amended: for every product name, URL and category list the
    classifier is the reference definition that looks at the first
    [collections] segment of the URL split on [/]: when a non-empty
    segment follows it, that segment in title case, whatever the
    product name; otherwise the first category, in list order, that
    occurs in the product name ignoring case; otherwise [Other]. *)
Theorem determineCategory_first_collections productName url categories :
  determineCategory productName url categories
  = classifyFirst productName url categories.
Proof.
  unfold determineCategory, classifyFirst, classifyBy.
  rewrite slugAfterFirst_indexOf, byName_ref. cbv zeta.
  destruct (negb _ && (_ <? _)); [|reflexivity].
  destruct (JS.truthy _ && negb _); [|reflexivity].
  unfold titleCase. now rewrite (proj1 (titleCase_split _)).
Qed.

(** C2, as stated, fails: when the first [collections] segment is
    followed by an empty segment, a later [collections] segment is not
    looked at. *)
Lemma determineCategory_later_collections :
  determineCategory "Dream Machine"
    "https://store.ui.com/us/collections//collections/cameras" []
  = "Other"
  /\ classifySome "Dream Machine"
       "https://store.ui.com/us/collections//collections/cameras" []
     = "Cameras"
  /\ determineCategory "Dream Machine"
       "https://store.ui.com/us/collections//collections/cameras" []
     <> classifySome "Dream Machine"
          "https://store.ui.com/us/collections//collections/cameras" [].
Proof.
  split; [|split]; vm_compute; [reflexivity | reflexivity | discriminate].
Qed.

Example determineCategory_collection :
  determineCategory "UniFi Protect G4"
    "https://store.ui.com/us/collections/unifi-door-access/products/x"
    ["Networks"; "Protect"] = "Unifi Door Access".
Proof. vm_compute. reflexivity. Qed.

Example determineCategory_name :
  determineCategory "UniFi PROTECT G4" "https://store.ui.com/us/products/g4"
    ["Networks"; "Protect"] = "Protect".
Proof. vm_compute. reflexivity. Qed.

End Classifier.

(** ** Link Extractor *)

Section RegExpProgress.

(** A match leaves a suffix of the text. *)
Lemma matchHere_rest_le pat s cap rest :
  RegExp.matchHere pat s = Some (cap, rest) ->
  (String.length rest <= String.length s)%nat.
Proof.
  revert s cap rest.
  induction pat as [|it pat IH]; intros s cap rest.
  - simpl. intros [= _ <-]. lia.
  - destruct it as [p|p|p|]; cbn [RegExp.matchHere].
    + destruct s as [|c s']; [discriminate|].
      destruct (p c); [|discriminate].
      intros H%IH. simpl. lia.
    + revert cap rest. induction s as [|c s' IHs]; intros cap rest.
      * apply IH.
      * destruct (p c); [|apply IH].
        match goal with |- context [match ?t with _ => _ end] =>
          destruct t as [[cap' rest']|] eqn:E end.
        -- intros [= <- <-]. specialize (IHs _ _ eq_refl). simpl. lia.
        -- apply IH.
    + revert cap rest. induction s as [|c s' IHs]; intros cap rest;
        [discriminate|].
      destruct (p c); [|discriminate].
      match goal with |- context [match ?t with Some _ => _ | None => _ end] =>
        destruct t as [[cap' rest']|] eqn:E end.
      * intros [= <- <-]. specialize (IHs _ _ eq_refl). simpl. lia.
      * destruct (RegExp.matchHere pat s') as [[cap' rest']|] eqn:E';
          [|discriminate].
        intros [= <- <-]. apply IH in E'. simpl. lia.
    + destruct s; [apply IH|discriminate].
Qed.

Lemma matchHere_rest_lt p pat s cap rest :
  RegExp.matchHere (RegExp.Chr p :: pat) s = Some (cap, rest) ->
  (String.length rest < String.length s)%nat.
Proof.
  simpl. destruct s as [|c s']; [discriminate|].
  destruct (p c); [|discriminate].
  intros H%matchHere_rest_le. simpl. lia.
Qed.

Lemma linkRegex_matchAlt_lt s cap rest :
  RegExp.matchAlt linkRegex s = Some (cap, rest) ->
  (String.length rest < String.length s)%nat.
Proof.
  unfold linkRegex. cbn [RegExp.matchAlt].
  match goal with |- context [match ?t with _ => _ end] =>
    destruct t as [[c1 r1]|] eqn:E1 end.
  - intros [= <- <-]. revert E1. apply matchHere_rest_lt.
  - match goal with |- context [match ?t with _ => _ end] =>
      destruct t as [[c2 r2]|] eqn:E2 end; [|discriminate].
    intros [= <- <-]. revert E2. apply matchHere_rest_lt.
Qed.

Lemma linkRegex_exec_lt s before cap rest :
  RegExp.exec linkRegex s = Some (before, cap, rest) ->
  (String.length rest < String.length s)%nat.
Proof.
  revert before cap rest.
  induction s as [|c s' IH]; intros before cap rest; cbn [RegExp.exec].
  - destruct (RegExp.matchAlt linkRegex "") as [[c0 r0]|] eqn:E;
      [|discriminate].
    intros [= _ <- <-]. apply linkRegex_matchAlt_lt in E. exact E.
  - destruct (RegExp.matchAlt linkRegex (String c s')) as [[c0 r0]|] eqn:E.
    + intros [= _ <- <-]. apply linkRegex_matchAlt_lt in E. exact E.
    + destruct (RegExp.exec linkRegex s') as [[[b1 c1] r1]|] eqn:E';
        [|discriminate].
      intros [= _ <- <-]. specialize (IH _ _ _ eq_refl). simpl. lia.
Qed.

(** The fuel of [linkMatches] is enough: more fuel finds the same
    matches. *)
Lemma execLoop_fuel fuel fuel' html :
  (String.length html < fuel)%nat -> (String.length html < fuel')%nat ->
  execLoop fuel html = execLoop fuel' html.
Proof.
  revert fuel' html.
  induction fuel as [|fuel IH]; intros fuel' html Hf Hf'; [lia|].
  destruct fuel' as [|fuel']; [lia|]. cbn [execLoop].
  destruct (RegExp.exec linkRegex html) as [[[before url] rest]|] eqn:E;
    [|reflexivity].
  apply linkRegex_exec_lt in E. f_equal. apply IH; lia.
Qed.

Lemma linkMatches_unfold html :
  linkMatches html =
  match RegExp.exec linkRegex html with
  | Some (_, url, rest) => url :: linkMatches rest
  | None => []
  end.
Proof.
  unfold linkMatches at 1. cbn [execLoop].
  destruct (RegExp.exec linkRegex html) as [[[before url] rest]|] eqn:E;
    [|reflexivity].
  apply linkRegex_exec_lt in E. f_equal. apply execLoop_fuel; lia.
Qed.

End RegExpProgress.

Section LinkScan.

Import Spec.

Lemma append_assoc (a b c : string) : (a ++ b) ++ c = a ++ b ++ c.
Proof.
  induction a as [|x a IH]; [reflexivity|].
  change (String x ((a ++ b) ++ c) = String x (a ++ b ++ c)). now f_equal.
Qed.

(** The group [(class+)] followed by one character of [q]. *)
Lemma matchHere_group p q s cap rest :
  RegExp.matchHere [RegExp.Group p; RegExp.Chr q] s = Some (cap, rest) ->
  exists c, s = cap ++ String c rest
            /\ q c = true /\ cap <> "" /\ allChars p cap = true.
Proof.
  cbn [RegExp.matchHere]. revert cap rest.
  induction s as [|a s IH]; intros cap rest; [discriminate|].
  destruct (p a) eqn:Pa; [|discriminate].
  match goal with |- context [match ?t with Some _ => _ | None => _ end] =>
    destruct t as [[cap' rest']|] eqn:E end.
  - intros [= <- <-]. destruct (IH _ _ eq_refl) as (c & -> & Hq & _ & Hall).
    exists c. repeat split; [exact Hq|discriminate|]. cbn [allChars].
    now rewrite Pa, Hall.
  - destruct s as [|c s']; [discriminate|].
    destruct (q c) eqn:Qc; [|discriminate].
    intros [= <- <-]. exists c. repeat split; [exact Qc|discriminate|].
    cbn [allChars]. now rewrite Pa.
Qed.

Lemma matchHere_lit name pat s r :
  RegExp.matchHere (RegExp.lit name ++ pat)%list s = Some r ->
  exists s', s = name ++ s' /\ RegExp.matchHere pat s' = Some r.
Proof.
  revert s. induction name as [|a name IH]; intros s.
  - intros H. now exists s.
  - cbn [RegExp.lit list_ascii_of_string map app RegExp.matchHere].
    destruct s as [|b s]; [discriminate|].
    destruct (Ascii.eqb_spec a b) as [<- | _]; [|discriminate].
    intros (s' & -> & H)%IH. now exists s'.
Qed.

Lemma matchHere_attr name s cap rest :
  RegExp.matchHere
    (RegExp.lit name ++
     [RegExp.Chr RegExp.isQuote;
      RegExp.Group (fun c => negb (RegExp.isQuote c));
      RegExp.Chr RegExp.isQuote])%list s = Some (cap, rest) ->
  exists q1 q2,
    s = name ++ String q1 (cap ++ String q2 rest)
    /\ RegExp.isQuote q1 = true /\ RegExp.isQuote q2 = true
    /\ cap <> ""
    /\ allChars (fun c => negb (RegExp.isQuote c)) cap = true.
Proof.
  intros (s' & -> & H)%matchHere_lit.
  change (RegExp.matchHere
            (RegExp.Chr RegExp.isQuote
             :: [RegExp.Group (fun c => negb (RegExp.isQuote c));
                 RegExp.Chr RegExp.isQuote]) s' = Some (cap, rest)) in H.
  cbn [RegExp.matchHere] in H. destruct s' as [|q1 s'']; [discriminate|].
  destruct (RegExp.isQuote q1) eqn:Q1; [|discriminate].
  apply matchHere_group in H as (q2 & -> & Q2 & Hne & Hall).
  now exists q1, q2.
Qed.

Lemma linkRegex_matchAlt s cap rest :
  RegExp.matchAlt linkRegex s = Some (cap, rest) ->
  exists name q1 q2,
    s = name ++ String q1 (cap ++ String q2 rest)
    /\ (name = "href=" \/ name = "src=")
    /\ RegExp.isQuote q1 = true /\ RegExp.isQuote q2 = true
    /\ cap <> ""
    /\ allChars (fun c => negb (RegExp.isQuote c)) cap = true.
Proof.
  unfold linkRegex. cbn [RegExp.matchAlt].
  match goal with |- context [match ?t with _ => _ end] =>
    destruct t as [[c1 r1]|] eqn:E1 end.
  - intros [= <- <-]. apply matchHere_attr in E1 as (q1 & q2 & H).
    exists "href=", q1, q2. tauto.
  - match goal with |- context [match ?t with _ => _ end] =>
      destruct t as [[c2 r2]|] eqn:E2 end; [|discriminate].
    intros [= <- <-]. apply matchHere_attr in E2 as (q1 & q2 & H).
    exists "src=", q1, q2. tauto.
Qed.

Lemma exec_split alts s before cap rest :
  RegExp.exec alts s = Some (before, cap, rest) ->
  exists mid, s = before ++ mid /\ RegExp.matchAlt alts mid = Some (cap, rest).
Proof.
  revert before. induction s as [|c s IH]; intros before; cbn [RegExp.exec].
  - destruct (RegExp.matchAlt alts "") as [[c0 r0]|] eqn:E; [|discriminate].
    intros [= <- <- <-]. now exists "".
  - destruct (RegExp.matchAlt alts (String c s)) as [[c0 r0]|] eqn:E.
    + intros [= <- <- <-]. now exists (String c s).
    + destruct (RegExp.exec alts s) as [[[b1 c1] r1]|]; [|discriminate].
      intros [= <- <- <-]. destruct (IH _ eq_refl) as (mid & -> & H).
      now exists mid.
Qed.

(** What the scan collects: the values of the [href] and [src]
    attributes written between quotes. *)
Lemma linkMatches_attribute html raw :
  raw ∈ linkMatches html -> attributeValue html raw.
Proof.
  remember (String.length html) as n eqn:Hn. revert html Hn.
  induction n as [n IH] using lt_wf_ind. intros html -> .
  rewrite linkMatches_unfold.
  destruct (RegExp.exec linkRegex html) as [[[before url] rest]|] eqn:E;
    [|intros H; now apply elem_of_nil in H].
  pose proof (linkRegex_exec_lt _ _ _ _ E) as Hlt.
  apply exec_split in E as (mid & -> & M).
  apply linkRegex_matchAlt in M
    as (name & q1 & q2 & -> & Hname & Q1 & Q2 & Hne & Hall).
  intros [-> | Hin]%elem_of_cons.
  - now exists before, name, q1, q2, rest.
  - destruct (IH _ Hlt rest eq_refl Hin)
      as (b' & name' & q1' & q2' & after & -> & H).
    exists (before ++ name ++ String q1 (url ++ String q2 b')),
      name', q1', q2', after.
    split; [|exact H].
    rewrite !append_assoc. do 2 f_equal.
    change (String q1 (url ++ String q2 b') ++ ?x)
      with (String q1 ((url ++ String q2 b') ++ x)).
    now rewrite append_assoc.
Qed.

End LinkScan.

Section JsSet.

Lemma setHas_true x (s : list string) : JS.setHas x s = true <-> x ∈ s.
Proof. unfold JS.setHas. apply bool_decide_eq_true. Qed.

Lemma setHas_false x (s : list string) : JS.setHas x s = false <-> x ∉ s.
Proof. unfold JS.setHas. apply bool_decide_eq_false. Qed.

Lemma elem_of_setAdd y x (s : list string) :
  y ∈ JS.setAdd x s <-> y = x \/ y ∈ s.
Proof.
  unfold JS.setAdd. destruct (JS.setHas x s) eqn:E.
  - apply setHas_true in E. split; [now right|]. now intros [->|].
  - rewrite elem_of_app, list_elem_of_singleton. tauto.
Qed.

Lemma NoDup_setAdd x (s : list string) : NoDup s -> NoDup (JS.setAdd x s).
Proof.
  intros H. unfold JS.setAdd. destruct (JS.setHas x s) eqn:E; [exact H|].
  apply setHas_false in E. apply NoDup_app. split; [exact H|].
  split; [|apply NoDup_singleton].
  intros y Hy ->%list_elem_of_singleton. contradiction.
Qed.

Lemma setOf_from (acc xs : list string) :
  NoDup acc ->
  NoDup (foldl (fun s x => JS.setAdd x s) acc xs)
  /\ forall y, y ∈ foldl (fun s x => JS.setAdd x s) acc xs <-> y ∈ acc \/ y ∈ xs.
Proof.
  revert acc. induction xs as [|x xs IH]; intros acc Hacc; cbn [foldl].
  - split; [exact Hacc|]. intros y. rewrite elem_of_nil. tauto.
  - destruct (IH (JS.setAdd x acc) (NoDup_setAdd x acc Hacc)) as [Hn He].
    split; [exact Hn|]. intros y.
    rewrite He, elem_of_setAdd, elem_of_cons. tauto.
Qed.


Lemma elem_of_setOf y (xs : list string) : y ∈ JS.setOf xs <-> y ∈ xs.
Proof.
  unfold JS.setOf. rewrite (proj2 (setOf_from [] xs (NoDup_nil_2))).
  rewrite elem_of_nil. tauto.
Qed.

End JsSet.

Section LinkExtractor.

Variable newURL : string -> string -> option string.

Lemma pushLink_elem exts base acc raw u :
  u ∈ pushLink newURL exts base acc raw ->
  u ∈ acc \/ Spec.accepted newURL exts base raw u.
Proof.
  unfold pushLink. destruct (JS.truthy raw); [|now left].
  destruct (existsb _ exts) eqn:E; [|now left].
  destruct (newURL raw base) as [a|] eqn:R; [|now left].
  rewrite elem_of_app, list_elem_of_singleton. intros [H | ->]; [now left|].
  right. split; [|exact R].
  apply existsb_exists in E as (ext & Hin & Hext).
  exists ext. split; [now apply list_elem_of_In|exact Hext].
Qed.

Lemma pushLinks_elem exts base raws acc u :
  u ∈ foldl (pushLink newURL exts base) acc raws ->
  u ∈ acc \/ exists raw, raw ∈ raws /\ Spec.accepted newURL exts base raw u.
Proof.
  revert acc. induction raws as [|raw raws IH]; intros acc; cbn [foldl].
  - now left.
  - intros [H | (raw' & Hin & Hacc)]%IH.
    + apply pushLink_elem in H as [H | H]; [now left|].
      right. exists raw. split; [apply list_elem_of_here|exact H].
    + right. exists raw'. split; [now apply list_elem_of_further|exact Hacc].
Qed.


End LinkExtractor.


Example extractLinks_resolves :
  extractLinks URL.newHref
    "<a href='/us/a.JPG'>x</a><img src='b.png'><img src='b.png'><a href='c.pdf'>"
    [".jpg"; ".png"] "https://store.ui.com/us/products/widget"
  = ["https://store.ui.com/us/a.JPG"; "https://store.ui.com/us/products/b.png"].
Proof. vm_compute. reflexivity. Qed.

(** ** Product Parser *)

Section Parser.

Import Dom ProductParser Spec.

Lemma append_empty_r (s : string) : s ++ "" = s.
Proof.
  induction s as [|c s IH]; [reflexivity|].
  change (String c (s ++ "") = String c s). now f_equal.
Qed.

Lemma text_single e : text [e] = textContent (self e).
Proof. unfold text. cbn [concatText]. apply append_empty_r. Qed.

Lemma truthy_eqb s : JS.truthy s = negb (String.eqb s "").
Proof. reflexivity. Qed.

(** *** The table path, row by row *)

Lemma addRow_entry specs row : addRow specs row = putEntry specs (rowEntry row).
Proof.
  unfold addRow, rowEntry.
  destruct (find (css cellSel) [row]) as [|k [|v cells]]; try reflexivity.
  cbn [length Nat.leb at_ nth_error]. rewrite !text_single, !truthy_eqb.
  destruct (String.eqb (JS.trim (textContent (self k))) "");
    destruct (String.eqb (JS.trim (textContent (self v))) ""); reflexivity.
Qed.

Lemma foldl_addRow specs rows :
  foldl addRow specs rows = foldl putEntry specs (map rowEntry rows).
Proof.
  revert specs. induction rows as [|row rows IH]; intros specs;
    [reflexivity|].
  cbn [foldl map]. now rewrite IH, addRow_entry.
Qed.

Lemma keysLength_pos (specs : gmap string string) :
  (0 <? keysLength specs)%nat = negb (bool_decide (specs = ∅)).
Proof.
  unfold keysLength. destruct (decide (specs = ∅)) as [-> | Hne].
  - now rewrite map_size_empty, bool_decide_eq_true_2.
  - rewrite bool_decide_eq_false_2 by exact Hne.
    apply Nat.ltb_lt. apply map_size_non_empty_iff in Hne. lia.
Qed.

Lemma tableEntries_no_table doc selector :
  select (css selector) doc = [] -> tableEntries doc selector = ∅.
Proof. unfold tableEntries. now intros ->. Qed.

(** The loop over the table selectors starts every selector with an
    empty [specs] and stops at the first one that gives an entry. *)
Lemma tableLoop_ref doc selectors :
  tableLoop doc selectors ∅ =
  match
    List.find (fun selector => negb (bool_decide (tableEntries doc selector = ∅)))
              selectors
  with
  | Some selector => inl (tableEntries doc selector)
  | None => inr ∅
  end.
Proof.
  induction selectors as [|selector rest IH]; [reflexivity|].
  cbn [tableLoop List.find].
  destruct (0 <? length (select (css selector) doc))%nat eqn:L.
  - rewrite foldl_addRow. fold (tableEntries doc selector).
    rewrite keysLength_pos.
    destruct (bool_decide (tableEntries doc selector = ∅)) eqn:B;
      [|reflexivity].
    cbn [negb]. apply bool_decide_eq_true in B. rewrite B. exact IH.
  - assert (select (css selector) doc = []) as E
      by (destruct (select (css selector) doc); [reflexivity|discriminate]).
    rewrite (tableEntries_no_table _ _ E), bool_decide_eq_true_2 by reflexivity.
    exact IH.
Qed.

(** *** The term/definition lists *)

Lemma at_skipn j (defs : list elem) :
  at_ j defs = match skipn j defs with d :: _ => [d] | [] => [] end.
Proof.
  unfold at_. revert defs. induction j as [|j IH]; intros [|d defs];
    try reflexivity.
  cbn [nth_error skipn]. apply IH.
Qed.

Lemma skipn_S_tail j (defs : list elem) :
  skipn (S j) defs = tl (skipn j defs).
Proof.
  revert defs. induction j as [|j IH]; intros [|d defs]; try reflexivity.
  change (skipn (S (S j)) (d :: defs)) with (skipn (S j) defs).
  now rewrite IH.
Qed.

Lemma eachi_pairs (defs terms : list elem) j specs :
  eachi
    (fun specs j term =>
       let key := JS.trim (text [term]) in
       let value := JS.trim (text (at_ j defs)) in
       if JS.truthy key && JS.truthy value then setProp key value specs
       else specs)
    j specs terms
  = foldl putEntry specs (map pairEntry (combine terms (skipn j defs))).
Proof.
  revert j specs. induction terms as [|term terms IH]; intros j specs;
    [reflexivity|].
  cbn [eachi]. rewrite IH, skipn_S_tail, at_skipn. cbv zeta.
  destruct (skipn j defs) as [|d ds].
  - cbn [tl combine map foldl]. change (text []) with "".
    change (JS.truthy (JS.trim "")) with false. rewrite andb_false_r.
    now destruct terms.
  - cbn [tl combine map foldl]. f_equal.
    unfold pairEntry. cbn [fst snd]. rewrite !text_single, !truthy_eqb.
    destruct (String.eqb (JS.trim (textContent (self term))) "");
      destruct (String.eqb (JS.trim (textContent (self d))) ""); reflexivity.
Qed.

Lemma addList_pairs specs dl :
  addList specs dl = foldl putEntry specs (map pairEntry (listPairs dl)).
Proof. unfold addList, listPairs. now rewrite eachi_pairs. Qed.

Lemma foldl_addList specs dls :
  foldl addList specs dls
  = foldl putEntry specs (map pairEntry (flat_map listPairs dls)).
Proof.
  revert specs. induction dls as [|dl dls IH]; intros specs; [reflexivity|].
  cbn [foldl flat_map]. rewrite IH, addList_pairs, map_app, foldl_app.
  reflexivity.
Qed.

(** The extraction is the reference: the entries of the first table
    selector that has any, else the entries of the lists. *)
Lemma extractProductSpecifications_ref doc :
  extractProductSpecifications doc = specificationsRef doc.
Proof.
  unfold extractProductSpecifications, specificationsRef.
  rewrite tableLoop_ref.
  destruct (List.find _ specSelectors); [reflexivity|].
  unfold listEntries. apply foldl_addList.
Qed.

(** *** The elements below a node *)

Lemma node_children_ind (P : node -> Prop) :
  (forall name attribs kids, Forall P kids -> P (Element name attribs kids)) ->
  (forall data, P (Text data)) ->
  (forall data, P (Comment data)) ->
  forall n, P n.
Proof.
  intros HE HT HC. fix IH 1. intros [name attribs kids|data|data];
    [|apply HT|apply HC].
  apply HE. induction kids as [|k kids IHkids]; constructor;
    [apply IH|exact IHkids].
Qed.

Section Below.

Variable selector : Dom.selector.
Variable tags : list string.
Hypothesis selector_tags :
  forall e, matches selector e = hasTag tags (self e).

Lemma walks_below (f : nat -> list nat) anc kids i :
  Forall (fun k => forall p anc,
            map self (List.filter (matches selector) (walk p anc k))
            = if hasTag tags k then k :: below tags k else below tags k)
         kids ->
  map self (List.filter (matches selector)
              (concatMapi (fun i k => walk (f i) anc k) i kids))
  = flat_map (fun k => if hasTag tags k then k :: below tags k
                       else below tags k) kids.
Proof.
  intros H. revert i. induction H as [|k kids Hk _ IH]; intros i;
    [reflexivity|].
  cbn [concatMapi flat_map]. now rewrite List.filter_app, map_app, Hk, IH.
Qed.

Lemma walk_below n p anc :
  map self (List.filter (matches selector) (walk p anc n))
  = if hasTag tags n then n :: below tags n else below tags n.
Proof.
  revert p anc.
  induction n as [name attribs kids IH|data|data] using node_children_ind;
    intros p anc; try reflexivity.
  cbn [walk List.filter]. rewrite selector_tags. cbn [self].
  pose proof (walks_below (fun i => (p ++ [i])%list)
                (Element name attribs kids :: anc) kids 0 IH) as W.
  cbn [below].
  destruct (hasTag tags (Element name attribs kids)); cbn [map self];
    now rewrite W.
Qed.

(** [find] from one element gives the elements below it. *)
Lemma find_below e : map self (find selector [e]) = below tags (self e).
Proof.
  unfold find. cbn [removeSubsets app existsb flat_map]. rewrite app_nil_r.
  unfold descendants.
  destruct (self e) as [name attribs kids|data|data]; try reflexivity.
  cbn [below]. apply (walks_below (fun i => (path e ++ [i])%list)).
  apply Forall_forall. intros k _ p anc. apply walk_below.
Qed.

Lemma below_own n :
  noneDeeper tags n = true -> below tags n = own tags n.
Proof.
  unfold noneDeeper, own.
  destruct n as [name attribs kids|data|data]; try reflexivity.
  cbn [childNodes below]. induction kids as [|k kids IH]; [reflexivity|].
  cbn [forallb flat_map List.filter].
  intros [Hk Hkids]%andb_true_iff.
  destruct (below tags k); [|discriminate]. rewrite (IH Hkids).
  now destruct (hasTag tags k).
Qed.

End Below.

Lemma matches_cells e : matches (css cellSel) e = hasTag cellTags (self e).
Proof.
  unfold matches, matchComplex.
  cbn [css cellSel existsb rev app matchCompound forallb matchAncestors].
  destruct (self e); cbn [matchSimple hasTag existsb cellTags];
    [|reflexivity..].
  now rewrite !andb_true_r.
Qed.

Lemma matches_tag t e : matches (css (tagSel t)) e = hasTag [t] (self e).
Proof.
  unfold matches, matchComplex.
  cbn [css tagSel existsb rev app matchCompound forallb matchAncestors].
  destruct (self e); cbn [matchSimple hasTag existsb]; [|reflexivity..].
  now rewrite !andb_true_r.
Qed.

Lemma rowEntry_below row : rowEntry row = rowEntryBy (below cellTags) row.
Proof.
  unfold rowEntry, rowEntryBy.
  rewrite <- (find_below _ _ matches_cells row).
  destruct (find (css cellSel) [row]) as [|k [|v cells]]; reflexivity.
Qed.

Lemma pairEntries_nodes (ts ds : list elem) :
  map pairEntry (combine ts ds)
  = map (fun p => entryOf (fst p) (snd p))
        (combine (map self ts) (map self ds)).
Proof.
  revert ds. induction ts as [|t ts IH]; intros [|d ds]; try reflexivity.
  cbn [combine map]. now rewrite IH.
Qed.

Lemma listPairs_below dl :
  map pairEntry (listPairs dl) = listEntriesBy (below ["dt"]) (below ["dd"]) dl.
Proof.
  unfold listPairs, listEntriesBy.
  now rewrite pairEntries_nodes,
    (find_below _ _ (matches_tag "dt")), (find_below _ _ (matches_tag "dd")).
Qed.

Lemma tableEntries_below doc selector :
  tableEntries doc selector
  = tableEntriesBy (below cellTags) putEntry doc selector.
Proof.
  unfold tableEntries, tableEntriesBy. f_equal.
  apply map_ext. intros row. apply rowEntry_below.
Qed.

(** The extraction is the second reading. *)
Lemma specificationsRef_below doc :
  specificationsRef doc = specificationsBelow doc.
Proof.
  unfold specificationsRef, specificationsBelow, specificationsBy.
  rewrite (find_ext _
             (fun selector =>
                negb (bool_decide
                        (tableEntriesBy (below cellTags) putEntry doc selector
                         = ∅))))
    by (intros selector; now rewrite tableEntries_below).
  destruct (List.find _ specSelectors) as [selector|];
    [apply tableEntries_below|].
  unfold listEntries, dlEntriesBy. f_equal.
  induction (select (css (tagSel "dl")) doc) as [|dl dls IH]; [reflexivity|].
  cbn [flat_map]. now rewrite map_app, IH, listPairs_below.
Qed.

(** *** Plain markup: the two readings agree *)

Lemma foldl_put_plain (es es' : list (option (string * string))) specs :
  es = es' -> forallb plainKey es' = true ->
  foldl putEntry specs es = foldl putPlain specs es'.
Proof.
  intros <-. revert specs. induction es as [|e es IH]; intros specs;
    [reflexivity|].
  cbn [forallb foldl]. intros [He Hes]%andb_true_iff. rewrite (IH _ Hes).
  f_equal. destruct e as [[key value]|]; [|reflexivity].
  cbn [putEntry putPlain plainKey] in *. unfold setProp.
  now destruct (String.eqb key "__proto__").
Qed.

Lemma find_ext_in {A : Type} (f g : A -> bool) (l : list A) :
  (forall x, In x l -> f x = g x) -> List.find f l = List.find g l.
Proof.
  induction l as [|x l IH]; intros E; [reflexivity|].
  cbn [List.find]. rewrite (E x) by now left.
  destruct (g x); [reflexivity|]. apply IH. intros y Hy. apply E. now right.
Qed.

Lemma tableEntries_plain doc selector :
  plainMarkup doc = true -> In selector specSelectors ->
  tableEntriesBy (below cellTags) putEntry doc selector
  = tableEntriesBy (own cellTags) putPlain doc selector.
Proof.
  unfold plainMarkup. intros [R _]%andb_true_iff Hs.
  rewrite forallb_forall in R.
  assert (forall row,
            In row (find (css (tagSel "tr")) (select (css selector) doc)) ->
            noneDeeper cellTags (self row) = true
            /\ plainKey (rowEntryBy (own cellTags) row) = true) as Hrows.
  { intros row Hrow. apply andb_true_iff, R. unfold rowsOf.
    apply in_flat_map. now exists selector. }
  unfold tableEntriesBy. apply foldl_put_plain.
  - apply map_ext_in. intros row Hrow. unfold rowEntryBy.
    now rewrite (below_own _ _ (proj1 (Hrows row Hrow))).
  - apply forallb_forall. intros e (row & <- & Hrow)%in_map_iff.
    apply (Hrows row Hrow).
Qed.

Lemma dlEntries_plain doc :
  plainMarkup doc = true ->
  dlEntriesBy (below ["dt"]) (below ["dd"]) putEntry doc
  = dlEntriesBy (own ["dt"]) (own ["dd"]) putPlain doc.
Proof.
  unfold plainMarkup. intros [_ L]%andb_true_iff.
  unfold dlEntriesBy. apply foldl_put_plain.
  - induction (select (css (tagSel "dl")) doc) as [|dl dls IH];
      [reflexivity|].
    cbn [forallb flat_map] in *. apply andb_true_iff in L as [Hdl Hdls].
    apply andb_true_iff in Hdl as [Hdl _].
    apply andb_true_iff in Hdl as [Ht Hd].
    rewrite (IH Hdls). f_equal. unfold listEntriesBy.
    now rewrite (below_own _ _ Ht), (below_own _ _ Hd).
  - apply forallb_forall. intros e (dl & Hdl & He)%in_flat_map.
    rewrite forallb_forall in L. specialize (L dl Hdl).
    apply andb_true_iff in L as [_ L]. rewrite forallb_forall in L.
    now apply L.
Qed.

Lemma specificationsBelow_own doc :
  plainMarkup doc = true -> specificationsBelow doc = specificationsOwn doc.
Proof.
  intros H. unfold specificationsBelow, specificationsOwn, specificationsBy.
  rewrite (find_ext_in _
             (fun selector =>
                negb (bool_decide
                        (tableEntriesBy (own cellTags) putPlain doc selector
                         = ∅))))
    by (intros selector Hs; now rewrite (tableEntries_plain _ _ H Hs)).
  destruct (List.find _ specSelectors) as [selector|] eqn:F.
  - apply tableEntries_plain; [exact H|]. now apply find_some in F.
  - now apply dlEntries_plain.
Qed.

(** C6, as amended: for every row of the tables of a selector the
    extraction takes the first two [td] or [th] elements found at any
    depth below the row, cells of tables nested in the row included, as
    key and value, leaves out a row with fewer than two of them or with
    an empty key or value, and stores nothing for the key [__proto__];
    it returns the entries of the first table selector that gives at
    least one entry, without looking at the later ones, and pairs the
    i-th [dt] below a list with the i-th [dd] below it only when no
    table selector gave an entry.  On plain markup, where the cells
    below a row are its own, the terms and definitions below a list are
    its own and no key is [__proto__], these are the first two cells of
    every row and the i-th term and definition of every list.  The
    table with the rows (Key1, Val1), (empty, empty), (Key2, Val2)
    gives exactly Key1: Val1 and Key2: Val2. *)
Theorem extractProductSpecifications_tables_then_lists :
  (forall doc, extractProductSpecifications doc = specificationsBelow doc)
  /\ (forall doc,
        plainMarkup doc = true ->
        extractProductSpecifications doc = specificationsOwn doc)
  /\ extractProductSpecifications specTablePage
     = {[ "Key1" := "Val1"; "Key2" := "Val2" ]}.
Proof.
  split; [|split].
  - intros doc. now rewrite extractProductSpecifications_ref,
                  specificationsRef_below.
  - intros doc H. now rewrite extractProductSpecifications_ref,
                    specificationsRef_below, specificationsBelow_own.
  - apply map_eq. intros k.
    destruct (decide (k = "Key1")) as [-> | N1]; [vm_compute; reflexivity|].
    destruct (decide (k = "Key2")) as [-> | N2]; [vm_compute; reflexivity|].
    rewrite lookup_insert_ne, lookup_singleton_ne by congruence.
    assert (extractProductSpecifications specTablePage
            = <["Key2" := "Val2"]> (<["Key1" := "Val1"]> ∅)) as ->
      by (vm_compute; reflexivity).
    now rewrite !lookup_insert_ne, lookup_empty by congruence.
Qed.

(** The three-row table is plain markup. *)
Lemma plain_table_witness :
  plainMarkup specTablePage = true
  /\ extractProductSpecifications specTablePage
     = specificationsOwn specTablePage.
Proof.
  split; [vm_compute; reflexivity|].
  apply (proj1 (proj2 extractProductSpecifications_tables_then_lists)).
  vm_compute. reflexivity.
Defined.

(** C6, as stated, fails: in [nestedTablePage] the first cell of the
    row holds a table of its own; the value the extraction stores for
    the row is the text of the first cell of that inner table, not of
    the second cell of the row. *)
Lemma nested_table_cell_read_as_value :
  extractProductSpecifications nestedTablePage !! "PortsLAN4" = Some "LAN"
  /\ specificationsOwn nestedTablePage !! "PortsLAN4" = Some "5"
  /\ extractProductSpecifications nestedTablePage
     <> specificationsOwn nestedTablePage.
Proof.
  assert (extractProductSpecifications nestedTablePage !! "PortsLAN4"
          = Some "LAN") as H1 by (vm_compute; reflexivity).
  assert (specificationsOwn nestedTablePage !! "PortsLAN4" = Some "5") as H2
    by (vm_compute; reflexivity).
  split; [exact H1|]. split; [exact H2|].
  intros E. rewrite E in H1. congruence.
Qed.

(** *** Keys and values are not empty *)

Lemma rowEntry_nonempty row key value :
  rowEntry row = Some (key, value) -> key <> "" /\ value <> "".
Proof.
  unfold rowEntry.
  destruct (find (css cellSel) [row]) as [|k [|v cells]]; try discriminate.
  cbv zeta.
  destruct (String.eqb_spec (JS.trim (textContent (self k))) "");
    [discriminate|].
  destruct (String.eqb_spec (JS.trim (textContent (self v))) "");
    [discriminate|].
  cbn [orb]. now intros [= <- <-].
Qed.

Lemma pairEntry_nonempty p key value :
  pairEntry p = Some (key, value) -> key <> "" /\ value <> "".
Proof.
  unfold pairEntry. cbv zeta.
  destruct (String.eqb_spec (JS.trim (textContent (self (fst p)))) "");
    [discriminate|].
  destruct (String.eqb_spec (JS.trim (textContent (self (snd p)))) "");
    [discriminate|].
  cbn [orb]. now intros [= <- <-].
Qed.

Lemma putEntries_nonempty (es : list (option (string * string)))
    (specs : gmap string string) :
  (forall k v, specs !! k = Some v -> k <> "" /\ v <> "") ->
  (forall k v, In (Some (k, v)) es -> k <> "" /\ v <> "") ->
  forall k v, foldl putEntry specs es !! k = Some v -> k <> "" /\ v <> "".
Proof.
  revert specs. induction es as [|e es IH]; intros specs Hs Hes;
    [exact Hs|].
  cbn [foldl]. apply IH; [|intros k v Hin; apply Hes; now right].
  destruct e as [[key value]|]; [|exact Hs]. cbn [putEntry].
  unfold setProp. destruct (String.eqb key "__proto__"); [exact Hs|].
  intros k v [[<- <-] | [_ H]]%lookup_insert_Some.
  - apply Hes. now left.
  - now apply Hs.
Qed.

(** C10: every key and every value of the map returned by the
    specification extraction is a non-empty string, on the table path
    and on the list path alike. *)
Theorem specifications_nonempty_strings doc key value :
  extractProductSpecifications doc !! key = Some value ->
  key <> "" /\ value <> "".
Proof.
  rewrite extractProductSpecifications_ref. unfold specificationsRef.
  destruct (List.find _ specSelectors) as [selector|].
  - unfold tableEntries. apply putEntries_nonempty.
    + intros k v. now rewrite lookup_empty.
    + intros k v (row & E & _)%in_map_iff. now apply rowEntry_nonempty in E.
  - unfold listEntries. apply putEntries_nonempty.
    + intros k v. now rewrite lookup_empty.
    + intros k v (p & E & _)%in_map_iff. now apply pairEntry_nonempty in E.
Qed.

Lemma specifications_nonempty_witness : "Key1" <> "" /\ "Val1" <> "".
Proof.
  apply (specifications_nonempty_strings specTablePage).
  vm_compute. reflexivity.
Defined.

(** *** Fallbacks *)

Lemma cascade_none try selectors :
  (forall s, In s selectors -> try s = None) -> cascade try selectors = None.
Proof.
  induction selectors as [|s rest IH]; intros H; [reflexivity|].
  cbn [cascade]. rewrite (H s) by now left.
  apply IH. intros s' Hs'. apply H. now right.
Qed.

Lemma tableLoop_no_table doc selectors specs :
  (forall s, In s selectors -> select (css s) doc = []) ->
  tableLoop doc selectors specs = inr specs.
Proof.
  induction selectors as [|s rest IH]; intros H; [reflexivity|].
  cbn [tableLoop]. rewrite (H s) by now left.
  apply IH. intros s' Hs'. apply H. now right.
Qed.

Lemma featureLoop_no_item doc selectors features :
  (forall s, In s selectors -> select (css s) doc = []) ->
  featureLoop doc selectors features = features.
Proof.
  induction selectors as [|s rest IH]; intros H; [reflexivity|].
  cbn [featureLoop]. rewrite (H s) by now left.
  apply IH. intros s' Hs'. apply H. now right.
Qed.

(** When no selector of any cascade matches, every field but the name
    is its fallback, nothing is raised, and the name is what
    [titleRegex] leaves of the trimmed title text, or the placeholder
    when that is empty. *)
Lemma extractProductInfo_fallbacks doc url :
  noSelectorMatches doc ->
  extractProductInfo doc url =
  {| name :=
       (let title :=
          RegExp.remove titleRegex
            (JS.trim (text (select (css (tagSel "title")) doc))) in
        if JS.truthy title then title else "Unknown Product");
     description := "";
     price := "Price not available";
     specifications := ∅;
     features := [];
     url := url |}.
Proof.
  intros H. unfold extractProductInfo. f_equal.
  - unfold extractProductName. rewrite cascade_none; [reflexivity|].
    intros s Hs. rewrite (H s) by (rewrite !in_app_iff; tauto). reflexivity.
  - unfold extractProductDescription. rewrite cascade_none; [reflexivity|].
    intros s Hs. rewrite (H s) by (rewrite !in_app_iff; tauto).
    now destruct (JS.startsWith (src s) "meta").
  - unfold extractProductPrice. rewrite cascade_none; [reflexivity|].
    intros s Hs. rewrite (H s) by (rewrite !in_app_iff; tauto).
    now destruct (JS.startsWith (src s) "meta").
  - unfold extractProductSpecifications. rewrite tableLoop_no_table.
    + rewrite (H (tagSel "dl")); [reflexivity|].
      rewrite !in_app_iff. do 5 right. now left.
    + intros s Hs. apply H. rewrite !in_app_iff. tauto.
  - unfold extractProductFeatures. apply featureLoop_no_item.
    intros s Hs. apply H. rewrite !in_app_iff. tauto.
Qed.

Lemma titleOnlyPage_no_match : noSelectorMatches titleOnlyPage.
Proof.
  intros s Hs. cbn in Hs.
  repeat (destruct Hs as [<- | Hs]; [vm_compute; reflexivity|]).
  contradiction.
Qed.

(** C5 at a page whose title carries the site name: no selector of any
    cascade matches and every other field is its fallback, but the name
    keeps the suffix.  [titleRegex] asks for two backslashes in the
    text, so it does not match [ - Ubiquiti Store]. *)
Theorem extractProductInfo_title_suffix_kept url :
  noSelectorMatches titleOnlyPage
  /\ extractProductInfo titleOnlyPage url =
     {| name := "Widget - Ubiquiti Store";
        description := "";
        price := "Price not available";
        specifications := ∅;
        features := [];
        url := url |}.
Proof.
  split; [exact titleOnlyPage_no_match|].
  rewrite (extractProductInfo_fallbacks _ _ titleOnlyPage_no_match).
  f_equal.
Qed.

Example extractProductInfo_widget :
  let doc :=
    page []
      [Element "h1" [("class", "product-title")] [Text "Widget"];
       Element "span" [("class", "price")] [Text "$99"]] in
  extractProductInfo doc "https://store.ui.com/us/products/widget" =
  {| name := "Widget";
     description := "";
     price := "$99";
     specifications := ∅;
     features := [];
     url := "https://store.ui.com/us/products/widget" |}.
Proof. vm_compute. reflexivity. Qed.

End Parser.

(** ** Crawler *)

Section CrawlerSteps.

Import Crawler Spec.

Lemma arrayIncludes_false x (a : list string) :
  arrayIncludes x a = false <-> x ∉ a.
Proof. unfold arrayIncludes. apply bool_decide_eq_false. Qed.

Lemma existsb_includes_false link pats :
  existsb (fun pattern => JS.includes link pattern) pats = false <->
  ~ exists pattern, In pattern pats /\ JS.includes link pattern = true.
Proof.
  rewrite <- existsb_exists. now destruct (existsb _ pats).
Qed.


(** The rules leave no choice: they describe one function. *)
Lemma linkRule_functional cfg st link st1 st2 :
  linkRule cfg st link st1 -> linkRule cfg st link st2 -> st1 = st2.
Proof.
  intros H1 H2.
  destruct H1; destruct H2; try reflexivity; try congruence;
    try contradiction; tauto.
Qed.

Ltac link_cases :=
  unfold processLink;
  repeat match goal with
         | |- context [if ?b then _ else _] => destruct b eqn:?
         end.

Lemma processLink_visited cfg st link :
  visitedUrls (processLink cfg st link) = visitedUrls st.
Proof. link_cases; reflexivity. Qed.

Lemma processLink_frontier cfg st link :
  NoDup (urlsToVisit st) -> NoDup (urlsToVisit (processLink cfg st link)).
Proof.
  intros H. link_cases; try exact H. cbn [urlsToVisit].
  match goal with
  | E : negb _ && negb (arrayIncludes _ _) = true |- _ =>
      apply andb_true_iff in E as [_ Q%negb_true_iff%arrayIncludes_false]
  end.
  apply NoDup_app. split; [exact H|]. split; [|apply NoDup_singleton].
  intros y Hy ->%list_elem_of_singleton. contradiction.
Qed.

Lemma processLink_products cfg st link :
  NoDup (productUrls st) ->
  NoDup (productUrls (processLink cfg st link))
  /\ (forall y, y ∈ productUrls st -> y ∈ productUrls (processLink cfg st link))
  /\ (isProductLink cfg link = true ->
      link ∈ productUrls (processLink cfg st link)).
Proof.
  intros H. unfold isProductLink, processLink.
  destruct (JS.startsWith link (baseUrl cfg)); cbn [negb andb];
    [|split; [exact H|split; [tauto|discriminate]]].
  destruct (existsb _ (exclude (urlPatterns cfg))); cbn [negb andb];
    [split; [exact H|split; [tauto|discriminate]]|].
  destruct (JS.includes link "/products/").
  - cbn [productUrls]. split; [now apply NoDup_setAdd|]. split.
    + intros y Hy. apply elem_of_setAdd. now right.
    + intros _. apply elem_of_setAdd. now left.
  - repeat match goal with
           | |- context [if ?b then _ else _] => destruct b
           end;
      (split; [exact H|split; [tauto|discriminate]]).
Qed.


Lemma processLinks_visited cfg st ls :
  visitedUrls (fst (processLinks cfg st ls)) = visitedUrls st.
Proof.
  revert st. induction ls as [|l ls IH]; intros st; [reflexivity|].
  cbn [processLinks fst]. now rewrite IH, processLink_visited.
Qed.

Lemma processLinks_fetched cfg st ls :
  fetched (snd (processLinks cfg st ls)) = [].
Proof.
  revert st. induction ls as [|l ls IH]; intros st; [reflexivity|].
  cbn [processLinks snd fetched]. apply IH.
Qed.

Lemma processLinks_frontier cfg st ls :
  NoDup (urlsToVisit st) ->
  Forall NoDup (frontiers (snd (processLinks cfg st ls)))
  /\ NoDup (urlsToVisit (fst (processLinks cfg st ls))).
Proof.
  revert st. induction ls as [|l ls IH]; intros st H.
  - split; [constructor|exact H].
  - cbn [processLinks fst snd frontiers map].
    destruct (IH _ (processLink_frontier cfg st l H)) as [IH1 IH2].
    split; [|exact IH2]. constructor; [|exact IH1].
    now apply processLink_frontier.
Qed.

Lemma processLinks_products cfg st ls :
  NoDup (productUrls st) ->
  NoDup (productUrls (fst (processLinks cfg st ls)))
  /\ (forall y, y ∈ productUrls st ->
                y ∈ productUrls (fst (processLinks cfg st ls)))
  /\ (forall y, y ∈ discovered cfg (snd (processLinks cfg st ls)) ->
                y ∈ productUrls (fst (processLinks cfg st ls))).
Proof.
  revert st. induction ls as [|l ls IH]; intros st H.
  - repeat split; [exact H|tauto|]. intros y Hy. now apply elem_of_nil in Hy.
  - cbn [processLinks fst snd].
    destruct (processLink_products cfg st l H) as (N & M & D).
    destruct (IH _ N) as (IN & IM & ID).
    repeat split; [exact IN|now auto|].
    intros y. unfold discovered. cbn [links List.filter].
    destruct (isProductLink cfg l) eqn:E.
    + intros [-> | Hy]%elem_of_cons; [now auto|]. now apply ID.
    + apply ID.
Qed.

End CrawlerSteps.

Section CrawlLoop.

Import Crawler Spec.

Lemma fetched_app l1 l2 : fetched (l1 ++ l2) = (fetched l1 ++ fetched l2)%list.
Proof.
  induction l1 as [|[e st] l1 IH]; [reflexivity|].
  destruct e; cbn [app fetched]; now rewrite IH.
Qed.

Lemma links_app l1 l2 : links (l1 ++ l2) = (links l1 ++ links l2)%list.
Proof.
  induction l1 as [|[e st] l1 IH]; [reflexivity|].
  destruct e; cbn [app links]; now rewrite IH.
Qed.

Lemma elem_of_discovered_app cfg l1 l2 y :
  y ∈ discovered cfg (l1 ++ l2) <->
  y ∈ discovered cfg l1 \/ y ∈ discovered cfg l2.
Proof.
  unfold discovered. now rewrite links_app, List.filter_app, elem_of_app.
Qed.


Lemma processPage_visited cfg fetch n st url :
  visitedUrls (fst (processPage cfg fetch n st url)) = visitedUrls st.
Proof.
  unfold processPage. destruct (fetch n url) as [ls|]; [|reflexivity].
  apply processLinks_visited.
Qed.

Lemma processPage_fetched cfg fetch n st url :
  fetched (snd (processPage cfg fetch n st url)) = [url].
Proof.
  unfold processPage. destruct (fetch n url) as [ls|]; [|reflexivity].
  cbn [snd fetched]. now rewrite processLinks_fetched.
Qed.

Lemma processPage_frontier cfg fetch n st url :
  NoDup (urlsToVisit st) ->
  Forall NoDup (frontiers (snd (processPage cfg fetch n st url)))
  /\ NoDup (urlsToVisit (fst (processPage cfg fetch n st url))).
Proof.
  intros H. unfold processPage. destruct (fetch n url) as [ls|].
  - destruct (processLinks_frontier cfg st ls H) as [F N].
    split; [|exact N]. now constructor.
  - split; [|exact H]. now repeat constructor.
Qed.

Lemma processPage_products cfg fetch n st url :
  NoDup (productUrls st) ->
  NoDup (productUrls (fst (processPage cfg fetch n st url)))
  /\ (forall y, y ∈ productUrls st ->
                y ∈ productUrls (fst (processPage cfg fetch n st url)))
  /\ (forall y, y ∈ discovered cfg (snd (processPage cfg fetch n st url)) ->
                y ∈ productUrls (fst (processPage cfg fetch n st url))).
Proof.
  intros H. unfold processPage. destruct (fetch n url) as [ls|].
  - apply (processLinks_products cfg st ls H).
  - repeat split; [exact H|tauto|]. intros y Hy. now apply elem_of_nil in Hy.
Qed.


(** The pages fetched by the loop are distinct and were not visited
    before the loop. *)
Lemma crawlLoop_fetched cfg fetch st pageCount :
  NoDup (fetched (concat (snd (crawlLoop cfg fetch st pageCount))))
  /\ forall url,
       url ∈ fetched (concat (snd (crawlLoop cfg fetch st pageCount))) ->
       url ∉ visitedUrls st.
Proof.
  funelim (crawlLoop cfg fetch st pageCount); simp crawlLoop;
    cbn [snd concat fetched app visitedUrls] in *.
  - split; [constructor|]. intros u Hu. now apply elem_of_nil in Hu.
  - split; [constructor|]. intros u Hu. now apply elem_of_nil in Hu.
  - assumption.
  - rewrite !fetched_app, processPage_fetched. cbn [fetched app].
    match goal with IH : NoDup _ /\ _ |- _ => destruct IH as [IHn IHv] end.
    rewrite processPage_visited in IHv. cbn [visitedUrls] in IHv.
    assert (forall u, u ∈ visited -> u ∈ JS.setAdd url visited) as Hsub
      by (intros u Hu; apply elem_of_setAdd; now right).
    split.
    + apply NoDup_cons. split; [|exact IHn].
      intros Hin. apply (IHv _ Hin). apply elem_of_setAdd. now left.
    + intros u [-> | Hu]%elem_of_cons.
      * now apply setHas_false.
      * intros Hv. apply (IHv _ Hu). now apply Hsub.
Qed.

(** The frontier has no repetition after any step of the loop. *)
Lemma crawlLoop_frontier cfg fetch st pageCount :
  NoDup (urlsToVisit st) ->
  Forall NoDup (frontiers (concat (snd (crawlLoop cfg fetch st pageCount))))
  /\ NoDup (urlsToVisit (fst (crawlLoop cfg fetch st pageCount))).
Proof.
  funelim (crawlLoop cfg fetch st pageCount); simp crawlLoop;
    cbn [fst snd concat frontiers map app urlsToVisit] in *; intros Hq.
  - split; [constructor|exact Hq].
  - split; [constructor|exact Hq].
  - apply NoDup_cons in Hq as [_ Hq].
    match goal with IH : NoDup _ -> _ |- _ => destruct (IH Hq) as [IHf IHn] end.
    split; [|exact IHn]. now repeat constructor.
  - apply NoDup_cons in Hq as [_ Hq].
    destruct (processPage_frontier cfg fetch pageCount
                (mkCrawler (JS.setAdd url visited) products queue) url Hq)
      as [Pf Pn].
    match goal with IH : NoDup _ -> _ |- _ => destruct (IH Pn) as [IHf IHn] end.
    split; [|exact IHn].
    unfold frontiers in *. rewrite !map_app. cbn [map snd urlsToVisit].
    repeat (constructor; [assumption|]).
    rewrite !Forall_app. split; [split; [exact Pf|]|exact IHf].
    constructor; [exact Pn|constructor].
Qed.

(** The product set stays a set, only grows, and holds every product
    link met by the loop. *)
Lemma crawlLoop_products cfg fetch st pageCount :
  NoDup (productUrls st) ->
  NoDup (productUrls (fst (crawlLoop cfg fetch st pageCount)))
  /\ (forall y, y ∈ productUrls st ->
                y ∈ productUrls (fst (crawlLoop cfg fetch st pageCount)))
  /\ (forall y,
        y ∈ discovered cfg (concat (snd (crawlLoop cfg fetch st pageCount))) ->
        y ∈ productUrls (fst (crawlLoop cfg fetch st pageCount))).
Proof.
  funelim (crawlLoop cfg fetch st pageCount); simp crawlLoop;
    cbn [fst snd concat productUrls] in *; intros Hp.
  - repeat split; [exact Hp|tauto|]. intros y Hy. now apply elem_of_nil in Hy.
  - repeat split; [exact Hp|tauto|]. intros y Hy. now apply elem_of_nil in Hy.
  - match goal with IH : NoDup _ -> _ |- _ =>
      destruct (IH Hp) as (IHn & IHm & IHd) end.
    repeat split; [exact IHn|exact IHm|].
    intros y Hy. apply IHd. exact Hy.
  - destruct (processPage_products cfg fetch pageCount
                (mkCrawler (JS.setAdd url visited) products queue) url Hp)
      as (Pn & Pm & Pd).
    match goal with IH : NoDup _ -> _ |- _ =>
      destruct (IH Pn) as (IHn & IHm & IHd) end.
    repeat split; [exact IHn|now auto|].
    intros y Hy.
    change ((?a ++ ?b ++ ?c) ++ ?d)%list with (a ++ (b ++ c) ++ d)%list in Hy.
    apply elem_of_discovered_app in Hy as [Hy | Hy].
    { now apply elem_of_nil in Hy. }
    apply elem_of_discovered_app in Hy as [Hy | Hy]; [|now apply IHd].
    apply elem_of_discovered_app in Hy as [Hy | Hy]; [now auto|].
    now apply elem_of_nil in Hy.
Qed.

End CrawlLoop.

Section FreshRun.

Import Crawler Spec.

Lemma processLink_unvisited cfg st link :
  unvisitedFrontier st -> unvisitedFrontier (processLink cfg st link).
Proof.
  intros [N U]. split; [now apply processLink_frontier|].
  rewrite processLink_visited. unfold processLink.
  repeat match goal with
         | |- context [if ?b then _ else _] => destruct b eqn:?
         end; try exact U.
  cbn [urlsToVisit].
  match goal with
  | E : negb (JS.setHas _ _) && _ = true |- _ =>
      apply andb_true_iff in E as [V%negb_true_iff%setHas_false _]
  end.
  intros u [Hu | ->%list_elem_of_singleton]%elem_of_app; [now apply U|exact V].
Qed.

Lemma processPage_unvisited cfg fetch n st url :
  unvisitedFrontier st ->
  unvisitedFrontier (fst (processPage cfg fetch n st url)).
Proof.
  intros H. unfold processPage. destruct (fetch n url) as [ls|]; [|exact H].
  cbn [fst]. revert st H. induction ls as [|l ls IH]; intros st H; [exact H|].
  cbn [processLinks fst]. now apply IH, processLink_unvisited.
Qed.

Lemma endsWithDelay_snoc (log : list entry) st :
  endsWithDelay (log ++ [(Delay, st)]) = true.
Proof.
  unfold endsWithDelay, events. rewrite map_app. cbn [map fst].
  now rewrite last_snoc.
Qed.

(** While the frontier holds only unvisited URLs no turn of the loop is
    a skip: every turn ends with the delay. *)
Lemma crawlLoop_unvisited cfg fetch st pageCount :
  unvisitedFrontier st ->
  Forall (fun turn => endsWithDelay turn = true)
         (snd (crawlLoop cfg fetch st pageCount)).
Proof.
  funelim (crawlLoop cfg fetch st pageCount); simp crawlLoop;
    cbn [snd]; intros [N U]; cbn [urlsToVisit visitedUrls] in *;
    try (now constructor).
  - exfalso. apply (U url); [apply list_elem_of_here|].
    now apply setHas_true.
  - apply NoDup_cons in N as [Hurl N].
    constructor.
    + now rewrite !app_assoc, endsWithDelay_snoc.
    + match goal with IH : unvisitedFrontier _ -> _ |- _ => apply IH end.
      apply processPage_unvisited. split; [exact N|].
      cbn [urlsToVisit visitedUrls]. intros u Hu [-> | Hv]%elem_of_setAdd.
      * contradiction.
      * apply (U u); [now apply list_elem_of_further|exact Hv].
Qed.

(** In a run from a new crawler every turn of the loop fetches a page
    and ends with the delay. *)
Lemma new_crawler_always_delays cfg fetch :
  Forall (fun turn => endsWithDelay turn = true)
         (iterations (start cfg fetch newCrawler)).
Proof.
  unfold start, newCrawler. cbn [iterations visitedUrls productUrls
                                 urlsToVisit app].
  apply crawlLoop_unvisited. split; [apply NoDup_singleton|].
  intros url _ H. now apply elem_of_nil in H.
Qed.

End FreshRun.

Section CrawlerRun.

Import Crawler Spec.

(** C3: whatever the seed URL, the pages and the crawler [start] is
    called on, the sequence of URLs fetched as crawl pages has no
    repetition, and no URL that was visited before is fetched: a URL
    found in the visited set when it is popped is skipped. *)
Theorem crawl_pages_fetched_once cfg fetch st :
  NoDup (fetched (trace cfg (start cfg fetch st)))
  /\ forall url,
       url ∈ fetched (trace cfg (start cfg fetch st)) ->
       url ∉ visitedUrls st.
Proof.
  unfold trace, start. cbn [seeded iterations fetched].
  apply (crawlLoop_fetched cfg fetch
           (mkCrawler (visitedUrls st) (productUrls st)
                      (urlsToVisit st ++ [baseUrl cfg])%list) 0).
Qed.

(** C7: a product URL met as a link during phase 1, once or many
    times, is handed to [processProductPage] exactly once in phase 2:
    the product pages are the elements of a set, each taken once. *)
Theorem product_page_processed_once cfg fetch link :
  link ∈ discovered cfg (trace cfg (start cfg fetch newCrawler)) ->
  NoDup (productPages (start cfg fetch newCrawler))
  /\ count_occ string_dec (productPages (start cfg fetch newCrawler)) link
     = 1%nat.
Proof.
  unfold trace, start, newCrawler.
  cbn [seeded iterations productPages final visitedUrls productUrls
       urlsToVisit app].
  intros H.
  destruct (crawlLoop_products cfg fetch (mkCrawler [] [] [baseUrl cfg]) 0)
    as (N & _ & D); [constructor|].
  split; [exact N|].
  apply (proj1 (List.NoDup_count_occ' string_dec _)
               (proj1 (NoDup_ListNoDup _) N)).
  apply list_elem_of_In, D. exact H.
Qed.

Lemma product_page_processed_once_witness :
  NoDup (productPages (start defaultConfig smallStore newCrawler))
  /\ count_occ string_dec
       (productPages (start defaultConfig smallStore newCrawler))
       "https://store.ui.com/us/products/widget" = 1%nat.
Proof.
  apply (product_page_processed_once defaultConfig smallStore).
  vm_compute. apply list_elem_of_here.
Defined.



(** C9, as amended: the frontier holds no URL twice after the seed
    push, after every step of the loop and when the loop ends, exactly
    when the frontier of the crawler [start] is called on held no URL
    twice and did not hold the base URL, as in every run from a new
    crawler.  A link is appended only after the check that it is not in
    the frontier; the seed is pushed without a check. *)
Theorem frontier_has_no_duplicates cfg fetch st :
  (NoDup (urlsToVisit st) /\ baseUrl cfg ∉ urlsToVisit st)
  <-> (Forall NoDup (frontiers (trace cfg (start cfg fetch st)))
       /\ NoDup (urlsToVisit (final (start cfg fetch st)))).
Proof.
  unfold trace, start.
  cbn [seeded iterations final frontiers map snd urlsToVisit].
  split.
  - intros [N B].
    assert (NoDup (urlsToVisit st ++ [baseUrl cfg])) as N0.
    { apply NoDup_app. split; [exact N|]. split; [|apply NoDup_singleton].
      intros y Hy ->%list_elem_of_singleton. contradiction. }
    destruct (crawlLoop_frontier cfg fetch
                (mkCrawler (visitedUrls st) (productUrls st)
                           (urlsToVisit st ++ [baseUrl cfg])%list) 0 N0)
      as [F E].
    split; [|exact E]. constructor; [exact N0|exact F].
  - intros [F _]. apply Forall_cons_1 in F as [N0 _].
    apply NoDup_app in N0 as (N & B & _). split; [exact N|].
    intros H. apply (B _ H), list_elem_of_here.
Qed.

(** A run from a new crawler is such a run. *)
Lemma new_crawler_frontier_witness :
  Forall NoDup
    (frontiers (trace defaultConfig (start defaultConfig smallStore newCrawler)))
  /\ NoDup (urlsToVisit (final (start defaultConfig smallStore newCrawler))).
Proof.
  apply (proj1 (frontier_has_no_duplicates defaultConfig smallStore
                  newCrawler)).
  split; [constructor|]. intros H. now apply elem_of_nil in H.
Defined.

(** C9, as stated, fails: with a page cap of one the second run on
    [smallStore] ends with the base URL left in the frontier, and the
    third run pushes it again. *)
Lemma third_start_queues_seed_twice :
  urlsToVisit More.ranTwice = ["https://store.ui.com/us/"]
  /\ urlsToVisit (seeded (start More.onePage smallStore More.ranTwice))
     = ["https://store.ui.com/us/"; "https://store.ui.com/us/"]
  /\ ~ Forall NoDup
        (frontiers (trace More.onePage (start More.onePage smallStore More.ranTwice))).
Proof.
  split; [vm_compute; reflexivity|]. split; [vm_compute; reflexivity|].
  intros H. apply Forall_cons_1 in H as [H _].
  change (NoDup ["https://store.ui.com/us/"; "https://store.ui.com/us/"]) in H.
  apply NoDup_cons in H as [H _]. apply H, list_elem_of_here.
Qed.

Example crawl_smallStore :
  map events (iterations (start defaultConfig smallStore newCrawler))
  = [[Shift "https://store.ui.com/us/"; Visit "https://store.ui.com/us/";
      Fetch "https://store.ui.com/us/" true;
      Link "https://store.ui.com/us/collections/cameras";
      Link "https://store.ui.com/us/products/widget";
      Link "https://store.ui.com/us/cart"; Delay];
     [Shift "https://store.ui.com/us/collections/cameras";
      Visit "https://store.ui.com/us/collections/cameras";
      Fetch "https://store.ui.com/us/collections/cameras" true;
      Link "https://store.ui.com/us/products/widget";
      Link "https://store.ui.com/us/"; Delay]]
  /\ productPages (start defaultConfig smallStore newCrawler)
     = ["https://store.ui.com/us/products/widget"].
Proof. split; vm_compute; reflexivity. Qed.

End CrawlerRun.

(** * Further properties *)

(** ** Crawler *)

Section CrawlBounds.

Import Crawler Spec More.

Lemma fetched_concat_cons turn turns :
  fetched (concat (turn :: turns))
  = (fetched turn ++ fetched (concat turns))%list.
Proof. cbn [concat]. apply fetched_app. Qed.

Lemma fetched_fetch_turn cfg fetch n st1 st2 url :
  fetched
    ([(Shift url, st1); (Visit url, st2)]
     ++ snd (processPage cfg fetch n st2 url)
     ++ [(Delay, fst (processPage cfg fetch n st2 url))])%list
  = [url].
Proof.
  cbn [app fetched]. now rewrite fetched_app, processPage_fetched.
Qed.

(** The loop counts the pages it fetches up to the cap, and it stops
    only with an empty frontier or at the cap. *)
Lemma crawlLoop_cap cfg fetch st pageCount :
  (pageCount <= maxPages cfg)%nat ->
  (length (fetched (concat (snd (crawlLoop cfg fetch st pageCount))))
   <= maxPages cfg - pageCount)%nat
  /\ (urlsToVisit (fst (crawlLoop cfg fetch st pageCount)) = []
      \/ length (fetched (concat (snd (crawlLoop cfg fetch st pageCount))))
         = (maxPages cfg - pageCount)%nat).
Proof.
  funelim (crawlLoop cfg fetch st pageCount); simp crawlLoop; intros Hle;
    cbn [fst snd].
  - cbn. split; [lia|now left].
  - cbn. split; [lia|right; lia].
  - rewrite fetched_concat_cons. cbn [fetched app].
    match goal with IH : _ -> _ /\ _ |- _ => exact (IH Hle) end.
  - rewrite fetched_concat_cons, fetched_fetch_turn. cbn [app length].
    match goal with IH : _ -> _ /\ _ |- _ =>
      destruct IH as [IH1 IH2]; [lia|] end.
    split; [lia|]. destruct IH2 as [E | E]; [now left|right; lia].
Qed.

(** The visited set after the loop is the visited set before it
    followed by the pages fetched, in the order of the fetches. *)
Lemma crawlLoop_visited cfg fetch st pageCount :
  visitedUrls (fst (crawlLoop cfg fetch st pageCount))
  = (visitedUrls st
     ++ fetched (concat (snd (crawlLoop cfg fetch st pageCount))))%list.
Proof.
  funelim (crawlLoop cfg fetch st pageCount); simp crawlLoop;
    cbn [fst snd visitedUrls].
  - cbn. now rewrite app_nil_r.
  - cbn. now rewrite app_nil_r.
  - rewrite fetched_concat_cons. cbn [fetched app]. assumption.
  - rewrite fetched_concat_cons, fetched_fetch_turn.
    match goal with IH : visitedUrls _ = _ |- _ => rewrite IH end.
    rewrite processPage_visited. cbn [visitedUrls]. unfold JS.setAdd.
    match goal with E : JS.setHas _ _ = false |- _ => rewrite E end.
    now rewrite <- app_assoc.
Qed.

(** X1: a run fetches at most [maxPages] crawl pages, and when it
    fetched fewer the frontier is empty at the end: the loop stops only
    when the frontier is exhausted or the cap is reached. *)
Theorem crawl_stops_at_cap_or_empty_frontier cfg fetch st :
  (length (fetched (trace cfg (start cfg fetch st))) <= maxPages cfg)%nat
  /\ (urlsToVisit (final (start cfg fetch st)) = []
      \/ length (fetched (trace cfg (start cfg fetch st))) = maxPages cfg).
Proof.
  unfold trace, start. cbn [seeded iterations final fetched].
  destruct (crawlLoop_cap cfg fetch
              (mkCrawler (visitedUrls st) (productUrls st)
                         (urlsToVisit st ++ [baseUrl cfg])%list) 0)
    as [H1 H2]; [lia|].
  rewrite Nat.sub_0_r in H1, H2. now split.
Qed.

(** X2: the visited set at the end of a run is the visited set at its
    start followed by the crawl pages fetched, in the order in which
    they were fetched; nothing else is ever marked visited, product
    pages included. *)
Theorem visited_is_what_was_fetched cfg fetch st :
  visitedUrls (final (start cfg fetch st))
  = (visitedUrls st ++ fetched (trace cfg (start cfg fetch st)))%list.
Proof.
  unfold trace, start. cbn [seeded iterations final fetched].
  apply (crawlLoop_visited cfg fetch
           (mkCrawler (visitedUrls st) (productUrls st)
                      (urlsToVisit st ++ [baseUrl cfg])%list) 0).
Qed.

End CrawlBounds.

Section LinkTwice.

Import Crawler Spec More.

Lemma setAdd_twice x (s : list string) :
  JS.setAdd x (JS.setAdd x s) = JS.setAdd x s.
Proof.
  unfold JS.setAdd at 1.
  replace (JS.setHas x (JS.setAdd x s)) with true; [reflexivity|].
  symmetry. apply setHas_true, elem_of_setAdd. now left.
Qed.

(** X3: looking at the same link a second time changes nothing: the
    product set and the frontier take a link once. *)
Theorem processLink_idempotent cfg st link :
  processLink cfg (processLink cfg st link) link = processLink cfg st link.
Proof.
  unfold processLink at 2.
  destruct (JS.startsWith link (baseUrl cfg)) eqn:B; cbn [negb].
  2: { unfold processLink. now rewrite B. }
  destruct (existsb _ (exclude (urlPatterns cfg))) eqn:X.
  { unfold processLink. now rewrite B, X. }
  destruct (JS.includes link "/products/") eqn:P.
  { unfold processLink. rewrite B, X, P. cbn [negb productUrls visitedUrls
                                               urlsToVisit].
    now rewrite setAdd_twice. }
  destruct (existsb _ (include (urlPatterns cfg))) eqn:I.
  2: { unfold processLink. now rewrite B, X, P, I. }
  destruct (negb (JS.setHas link (visitedUrls st))
            && negb (arrayIncludes link (urlsToVisit st))) eqn:Q.
  - unfold processLink. rewrite B, X, P, I.
    cbn [negb productUrls visitedUrls urlsToVisit].
    replace (arrayIncludes link (urlsToVisit st ++ [link])) with true.
    + cbn [negb]. now rewrite andb_false_r, Q.
    + symmetry. unfold arrayIncludes. apply bool_decide_eq_true.
      apply elem_of_app. right. apply list_elem_of_here.
  - unfold processLink. now rewrite B, X, P, I, Q.
Qed.

End LinkTwice.

Section CrawlScope.

Import Crawler Spec More.

Lemma existsb_includes_true link pats :
  existsb (fun pattern => JS.includes link pattern) pats = true <->
  exists pattern, In pattern pats /\ JS.includes link pattern = true.
Proof. apply existsb_exists. Qed.

(** Only crawlable links enter the frontier. *)
Lemma processLink_queue cfg st link (P : string -> Prop) :
  (forall u, crawlable cfg u -> P u) ->
  Forall P (urlsToVisit st) ->
  Forall P (urlsToVisit (processLink cfg st link)).
Proof.
  intros HP H. unfold processLink.
  destruct (JS.startsWith link (baseUrl cfg)) eqn:B; cbn [negb];
    [|exact H].
  destruct (existsb _ (exclude (urlPatterns cfg))) eqn:X; [exact H|].
  destruct (JS.includes link "/products/") eqn:Pr; [exact H|].
  destruct (existsb _ (include (urlPatterns cfg))) eqn:I; [|exact H].
  destruct (negb _ && negb _); [|exact H].
  cbn [urlsToVisit]. apply Forall_app. split; [exact H|].
  constructor; [|constructor]. apply HP. unfold crawlable.
  split; [exact B|]. split; [now apply existsb_includes_false|].
  split; [unfold isProduct; congruence|now apply existsb_includes_true].
Qed.

Lemma processPage_queue cfg fetch n st url (P : string -> Prop) :
  (forall u, crawlable cfg u -> P u) ->
  Forall P (urlsToVisit st) ->
  Forall P (urlsToVisit (fst (processPage cfg fetch n st url))).
Proof.
  intros HP H. unfold processPage. destruct (fetch n url) as [ls|];
    [|exact H].
  cbn [fst]. revert st H. induction ls as [|l ls IH]; intros st H;
    [exact H|].
  cbn [processLinks fst]. now apply IH, processLink_queue.
Qed.

Lemma crawlLoop_fetched_from_queue cfg fetch st pageCount
    (P : string -> Prop) :
  (forall u, crawlable cfg u -> P u) ->
  Forall P (urlsToVisit st) ->
  Forall P (fetched (concat (snd (crawlLoop cfg fetch st pageCount)))).
Proof.
  funelim (crawlLoop cfg fetch st pageCount); simp crawlLoop;
    intros HP Hq; cbn [snd urlsToVisit] in *.
  - constructor.
  - constructor.
  - rewrite fetched_concat_cons. cbn [fetched app].
    apply Forall_cons in Hq as [_ Hq].
    match goal with IH : forall Q : string -> Prop, _ |- _ => now apply IH end.
  - rewrite fetched_concat_cons, fetched_fetch_turn. cbn [app].
    apply Forall_cons in Hq as [Hu Hq]. constructor; [exact Hu|].
    match goal with IH : forall Q : string -> Prop, _ |- _ => apply IH end;
      [exact HP|].
    now apply processPage_queue.
Qed.

(** X4: in a run from a new crawler every page fetched as a crawl page
    is the seed or a link of the site that contains no exclude pattern
    and no product marker and contains an include pattern: external,
    excluded and product URLs are never fetched as crawl pages. *)
Theorem fetched_pages_are_crawlable cfg fetch :
  Forall (fun url => url = baseUrl cfg \/ crawlable cfg url)
         (fetched (trace cfg (start cfg fetch newCrawler))).
Proof.
  unfold trace, start, newCrawler.
  cbn [seeded iterations fetched visitedUrls productUrls urlsToVisit app].
  apply crawlLoop_fetched_from_queue; [now right|].
  cbn [urlsToVisit]. constructor; [now left|constructor].
Qed.

Lemma processLink_products_from cfg st link y :
  y ∈ productUrls (processLink cfg st link) ->
  y ∈ productUrls st \/ (y = link /\ isProductLink cfg link = true).
Proof.
  unfold processLink, isProductLink.
  destruct (JS.startsWith link (baseUrl cfg)); cbn [negb andb];
    [|now left].
  destruct (existsb _ (exclude (urlPatterns cfg))); cbn [negb andb];
    [now left|].
  destruct (JS.includes link "/products/").
  - cbn [productUrls]. intros [-> | H]%elem_of_setAdd; [now right|now left].
  - destruct (existsb _ (include (urlPatterns cfg))); [|now left].
    destruct (negb _ && negb _); now left.
Qed.

Lemma processLinks_products_from cfg st ls y :
  y ∈ productUrls (fst (processLinks cfg st ls)) ->
  y ∈ productUrls st \/ y ∈ discovered cfg (snd (processLinks cfg st ls)).
Proof.
  revert st. induction ls as [|l ls IH]; intros st; [now left|].
  cbn [processLinks fst snd]. intros [H | H]%IH.
  - apply processLink_products_from in H as [H | [-> E]]; [now left|].
    right. unfold discovered. cbn [links List.filter]. rewrite E.
    apply list_elem_of_here.
  - right. unfold discovered in *. cbn [links List.filter].
    destruct (isProductLink cfg l); [now apply list_elem_of_further|exact H].
Qed.

Lemma processPage_products_from cfg fetch n st url y :
  y ∈ productUrls (fst (processPage cfg fetch n st url)) ->
  y ∈ productUrls st
  \/ y ∈ discovered cfg (snd (processPage cfg fetch n st url)).
Proof.
  unfold processPage. destruct (fetch n url) as [ls|]; [|now left].
  cbn [fst snd]. intros H%processLinks_products_from. exact H.
Qed.

Lemma crawlLoop_products_from cfg fetch st pageCount y :
  y ∈ productUrls (fst (crawlLoop cfg fetch st pageCount)) ->
  y ∈ productUrls st
  \/ y ∈ discovered cfg (concat (snd (crawlLoop cfg fetch st pageCount))).
Proof.
  funelim (crawlLoop cfg fetch st pageCount); simp crawlLoop;
    cbn [fst snd productUrls concat] in *.
  - now left.
  - now left.
  - intros Hy.
    match goal with IH : forall z : string, _ |- _ =>
      destruct (IH _ Hy) as [H1 | H1] end;
      [now left|right].
    apply elem_of_discovered_app. now right.
  - intros Hy.
    match goal with IH : forall z : string, _ |- _ =>
      destruct (IH _ Hy) as [H1 | H1] end.
    + apply processPage_products_from in H1 as [H1 | H1]; [now left|right].
      apply elem_of_discovered_app. left.
      change ([?a; ?b] ++ ?l)%list with ([a; b] ++ l)%list.
      apply elem_of_discovered_app. right.
      apply elem_of_discovered_app. now left.
    + right. apply elem_of_discovered_app. now right.
Qed.

(** X5: in a run from a new crawler the pages handed to
    [processProductPage] are exactly the product links met in phase 1:
    links of the site without an exclude pattern that contain the
    product marker.  No other URL is ever processed as a product. *)
Theorem product_pages_are_product_links cfg fetch url :
  url ∈ productPages (start cfg fetch newCrawler)
  <-> url ∈ discovered cfg (trace cfg (start cfg fetch newCrawler)).
Proof.
  unfold trace, start, newCrawler.
  cbn [seeded iterations productPages final visitedUrls productUrls
       urlsToVisit app].
  split.
  - intros [H | H]%crawlLoop_products_from; [|exact H].
    now apply elem_of_nil in H.
  - destruct (crawlLoop_products cfg fetch (mkCrawler [] [] [baseUrl cfg]) 0)
      as (_ & _ & D); [constructor|].
    apply D.
Qed.

Lemma processLinks_unvisited cfg st ls :
  unvisitedFrontier st ->
  Forall unvisitedFrontier (states (snd (processLinks cfg st ls)))
  /\ unvisitedFrontier (fst (processLinks cfg st ls)).
Proof.
  revert st. induction ls as [|l ls IH]; intros st H.
  - split; [constructor|exact H].
  - cbn [processLinks fst snd states map].
    destruct (IH _ (processLink_unvisited cfg st l H)) as [F U].
    split; [|exact U]. constructor; [|exact F].
    now apply processLink_unvisited.
Qed.

Lemma processPage_unvisited_log cfg fetch n st url :
  unvisitedFrontier st ->
  Forall unvisitedFrontier (states (snd (processPage cfg fetch n st url))).
Proof.
  intros H. unfold processPage. destruct (fetch n url) as [ls|].
  - cbn [snd states map]. constructor; [exact H|].
    apply (processLinks_unvisited cfg st ls H).
  - cbn [snd states map]. constructor; [exact H|constructor].
Qed.

Lemma crawlLoop_unvisited_log cfg fetch st pageCount :
  unvisitedFrontier st ->
  Forall unvisitedFrontier
         (states (concat (snd (crawlLoop cfg fetch st pageCount))))
  /\ unvisitedFrontier (fst (crawlLoop cfg fetch st pageCount)).
Proof.
  funelim (crawlLoop cfg fetch st pageCount); simp crawlLoop;
    cbn [fst snd concat]; intros HU.
  - split; [constructor|exact HU].
  - split; [constructor|exact HU].
  - assert (unvisitedFrontier (mkCrawler visited products queue)) as H1.
    { destruct HU as [N U]. cbn [urlsToVisit visitedUrls] in *.
      apply NoDup_cons in N as [_ N]. split; [exact N|].
      intros u Hu. apply U. now apply list_elem_of_further. }
    match goal with IH : unvisitedFrontier _ -> _ |- _ =>
      destruct (IH H1) as [F U] end.
    split; [|exact U]. unfold states in *. rewrite map_app.
    cbn [map snd app]. now repeat (constructor; [assumption|]).
  - assert (unvisitedFrontier (mkCrawler visited products queue)) as H1.
    { destruct HU as [N U]. cbn [urlsToVisit visitedUrls] in *.
      apply NoDup_cons in N as [_ N]. split; [exact N|].
      intros u Hu. apply U. now apply list_elem_of_further. }
    assert (unvisitedFrontier
              (mkCrawler (JS.setAdd url visited) products queue)) as H2.
    { destruct HU as [N U]. cbn [urlsToVisit visitedUrls] in *.
      apply NoDup_cons in N as [Hurl N]. split; [exact N|].
      intros u Hu [-> | Hv]%elem_of_setAdd; [contradiction|].
      apply (U u); [now apply list_elem_of_further|exact Hv]. }
    pose proof (processPage_unvisited cfg fetch pageCount _ url H2) as H3.
    pose proof (processPage_unvisited_log cfg fetch pageCount _ url H2) as H4.
    match goal with IH : unvisitedFrontier _ -> _ |- _ =>
      destruct (IH H3) as [F U] end.
    split; [|exact U]. unfold states in *. rewrite !map_app.
    cbn [map snd app]. repeat (constructor; [assumption|]).
    rewrite !Forall_app. split; [split; [exact H4|]|exact F].
    constructor; [exact H3|constructor].
Qed.

(** X6: in a run from a new crawler, after the seed, after every step of
    the loop and at the end, no URL of the frontier is in the visited
    set: a visited URL is never queued again. *)
Theorem frontier_never_holds_visited cfg fetch :
  Forall unvisitedFrontier (states (trace cfg (start cfg fetch newCrawler)))
  /\ unvisitedFrontier (final (start cfg fetch newCrawler)).
Proof.
  unfold trace, start, newCrawler.
  cbn [seeded iterations final states map snd visitedUrls productUrls
       urlsToVisit app].
  assert (unvisitedFrontier (mkCrawler [] [] [baseUrl cfg])) as H0.
  { split; [apply NoDup_singleton|]. intros u _ H. now apply elem_of_nil in H. }
  destruct (crawlLoop_unvisited_log cfg fetch _ 0 H0) as [F U].
  split; [|exact U]. constructor; [exact H0|exact F].
Qed.

End CrawlScope.

Section SeedFirst.

Import Crawler Spec More.

(** X7: in a run from a new crawler with a page cap above zero the
    first page fetched is the seed, the base URL of the
    configuration. *)
Theorem seed_is_fetched_first cfg fetch :
  (0 < maxPages cfg)%nat ->
  exists rest,
    fetched (trace cfg (start cfg fetch newCrawler)) = baseUrl cfg :: rest.
Proof.
  intros H. unfold trace, start, newCrawler.
  cbn [seeded iterations fetched visitedUrls productUrls urlsToVisit app].
  simp crawlLoop. destruct (lt_dec 0 (maxPages cfg)) as [L | N]; [|lia].
  cbn.
  replace (JS.setHas (baseUrl cfg) []) with false
    by (symmetry; apply setHas_false, not_elem_of_nil).
  cbn [crawlLoop_unfold_clause_2_clause_2 snd].
  rewrite fetched_concat_cons, fetched_fetch_turn. cbn [app]. now eexists.
Qed.

End SeedFirst.

Lemma seed_is_fetched_first_witness :
  exists rest,
    Spec.fetched
      (Crawler.trace Crawler.defaultConfig
         (Crawler.start Crawler.defaultConfig Spec.smallStore
            Crawler.newCrawler))
    = Crawler.baseUrl Crawler.defaultConfig :: rest.
Proof.
  apply (seed_is_fetched_first Crawler.defaultConfig Spec.smallStore).
  vm_compute. lia.
Defined.

(** ** Link Extractor *)

Section LinkExtractorMore.

Import Spec More.

Variable newURL : string -> string -> option string.

Lemma pushLink_keeps exts base acc raw u :
  u ∈ acc -> u ∈ pushLink newURL exts base acc raw.
Proof.
  intros H. unfold pushLink. destruct (JS.truthy raw); [|exact H].
  destruct (existsb _ exts); [|exact H].
  destruct (newURL raw base); [|exact H].
  apply elem_of_app. now left.
Qed.

Lemma linkMatches_truthy html raw :
  raw ∈ linkMatches html -> JS.truthy raw = true.
Proof.
  intros (_ & _ & _ & _ & _ & _ & _ & _ & _ & Hne & _)%linkMatches_attribute.
  unfold JS.truthy. now destruct (String.eqb_spec raw "").
Qed.

Lemma pushLink_accepts exts base acc raw u :
  JS.truthy raw = true ->
  accepted newURL exts base raw u ->
  u ∈ pushLink newURL exts base acc raw.
Proof.
  intros T [(ext & Hin & Hext) R]. unfold pushLink. rewrite T.
  replace (existsb _ exts) with true.
  - rewrite R. apply elem_of_app. right. apply list_elem_of_here.
  - symmetry. apply existsb_exists. exists ext.
    split; [now apply list_elem_of_In|exact Hext].
Qed.

Lemma pushLinks_complete exts base raws acc u :
  (u ∈ acc
   \/ exists raw, raw ∈ raws /\ JS.truthy raw = true
                  /\ accepted newURL exts base raw u) ->
  u ∈ foldl (pushLink newURL exts base) acc raws.
Proof.
  revert acc. induction raws as [|raw raws IH]; intros acc; cbn [foldl].
  - intros [H | (raw & Hin & _)]; [exact H|]. now apply elem_of_nil in Hin.
  - intros [H | (raw' & Hin & T & A)]; apply IH.
    + left. now apply pushLink_keeps.
    + apply elem_of_cons in Hin as [-> | Hin].
      * left. now apply pushLink_accepts.
      * right. now exists raw'.
Qed.

(** X8: a URL is in the output of [extractLinks] exactly when it is what
    [new URL] gives for some attribute value found by the scan whose
    lower-cased text ends in one of the extensions.  So nothing that
    matches and resolves is lost, an empty extension list gives an
    empty output, and a value that [new URL] rejects is dropped
    without an error. *)
Theorem extractLinks_complete html fileExtensions baseUrl u :
  u ∈ extractLinks newURL html fileExtensions baseUrl
  <-> exists raw,
        raw ∈ linkMatches html
        /\ (exists ext, ext ∈ fileExtensions
                        /\ JS.endsWith (JS.toLowerCase raw) ext = true)
        /\ newURL raw baseUrl = Some u.
Proof.
  unfold extractLinks. rewrite elem_of_setOf. split.
  - intros [H | (raw & Hin & Hext & Hres)]%pushLinks_elem.
    + now apply elem_of_nil in H.
    + now exists raw.
  - intros (raw & Hin & Hext & Hres). apply pushLinks_complete. right.
    exists raw. split; [exact Hin|]. split; [|now split].
    now apply (linkMatches_truthy html).
Qed.

Lemma lowerChar_not_upper c : JS.isUpper (JS.lowerChar c) = false.
Proof.
  destruct c as [[] [] [] [] [] [] [] []]; vm_compute; reflexivity.
Qed.

Lemma endsWith_upper s p :
  JS.endsWith (JS.toLowerCase s) p = true -> hasUpper p = false.
Proof.
  induction s as [|c s IH].
  - cbn [JS.toLowerCase JS.endsWith]. rewrite orb_false_r.
    intros <-%String.eqb_eq. reflexivity.
  - cbn [JS.toLowerCase JS.endsWith].
    intros [E | E]%orb_true_iff; [|now apply IH].
    apply String.eqb_eq in E. subst p. unfold hasUpper.
    cbn [list_ascii_of_string existsb]. rewrite lowerChar_not_upper.
    cbn [orb]. clear IH. induction s as [|d s IHs]; [reflexivity|].
    cbn [JS.toLowerCase list_ascii_of_string existsb].
    now rewrite lowerChar_not_upper.
Qed.

(** X9: the extension test lowers the case of the attribute value but
    not of the extension, so when every requested extension has an
    upper-case letter nothing is extracted, whatever the markup. *)
Theorem extractLinks_upper_case_extensions html fileExtensions baseUrl :
  (forall ext, ext ∈ fileExtensions -> hasUpper ext = true) ->
  extractLinks newURL html fileExtensions baseUrl = [].
Proof.
  intros H.
  destruct (extractLinks newURL html fileExtensions baseUrl) as [|u us] eqn:E;
    [reflexivity|exfalso].
  assert (u ∈ extractLinks newURL html fileExtensions baseUrl) as Hu
    by (rewrite E; apply list_elem_of_here).
  unfold extractLinks in Hu. apply elem_of_setOf, pushLinks_elem in Hu.
  destruct Hu as [Hu | (raw & _ & (ext & Hin & Hext) & _)].
  - now apply elem_of_nil in Hu.
  - apply endsWith_upper in Hext. rewrite (H ext Hin) in Hext. discriminate.
Qed.

End LinkExtractorMore.

Lemma extractLinks_upper_case_witness :
  extractLinks URL.newHref "<img src='/media/a.JPG'><img src='/media/b.jpg'>"
    [".JPG"] "https://store.ui.com/us/" = [].
Proof.
  apply (extractLinks_upper_case_extensions URL.newHref).
  intros ext ->%list_elem_of_singleton. reflexivity.
Defined.

(** ** Product Parser *)

Section Trim.

Lemma trimStart_head s :
  JS.trimStart s = ""
  \/ exists c s', JS.trimStart s = String c s' /\ JS.isSpace c = false.
Proof.
  induction s as [|c s IH]; [now left|].
  cbn [JS.trimStart]. destruct (JS.isSpace c) eqn:E; [exact IH|].
  right. now exists c, s.
Qed.

Lemma trimEnd_idempotent s : JS.trimEnd (JS.trimEnd s) = JS.trimEnd s.
Proof.
  induction s as [|c s IH]; [reflexivity|].
  cbn [JS.trimEnd]. destruct (JS.trimEnd s) as [|d t] eqn:E.
  - destruct (JS.isSpace c) eqn:Ec; [reflexivity|].
    cbn [JS.trimEnd]. now rewrite Ec.
  - cbn [JS.trimEnd]. cbn [JS.trimEnd] in IH.
    destruct (JS.trimEnd t) as [|d' t'] eqn:Et.
    + destruct (JS.isSpace d) eqn:Ed; [discriminate|]. now rewrite IH.
    + now rewrite IH.
Qed.

Lemma trimEnd_keeps_head c s :
  JS.isSpace c = false -> exists t, JS.trimEnd (String c s) = String c t.
Proof.
  intros E. cbn [JS.trimEnd]. destruct (JS.trimEnd s) as [|d t].
  - rewrite E. now exists "".
  - now exists (String d t).
Qed.

(** Trimming leaves nothing to trim. *)
Lemma trim_idempotent s : JS.trim (JS.trim s) = JS.trim s.
Proof.
  unfold JS.trim at 2 3. destruct (trimStart_head s) as [-> | (c & s' & -> & E)].
  - reflexivity.
  - destruct (trimEnd_keeps_head c s' E) as (t & Et). rewrite Et.
    unfold JS.trim. cbn [JS.trimStart]. rewrite E, <- Et.
    apply trimEnd_idempotent.
Qed.

End Trim.

Section ParserFields.

Import Dom ProductParser Spec More.

Lemma cascade_some try selectors r :
  cascade try selectors = Some r ->
  exists selector, In selector selectors /\ try selector = Some r.
Proof.
  induction selectors as [|s rest IH]; [discriminate|].
  cbn [cascade]. destruct (try s) as [r'|] eqn:E.
  - intros [= <-]. exists s. split; [now left|exact E].
  - intros (s' & Hin & H)%IH. exists s'. split; [now right|exact H].
Qed.

Lemma acceptTrimmed_some x r :
  acceptTrimmed x = Some r -> r <> "" /\ JS.trim r = r.
Proof.
  unfold acceptTrimmed. destruct x as [s|]; [|discriminate].
  destruct (JS.truthy s); [|discriminate]. cbn [andb].
  destruct (JS.truthy (JS.trim s)) eqn:T; [|discriminate].
  intros [= <-]. split; [|apply trim_idempotent].
  unfold JS.truthy in T. now destruct (String.eqb_spec (JS.trim s) "").
Qed.

(** X10: the product name is never the empty string: it is the trimmed
    text of a heading, what is left of the title, or the placeholder. *)
Theorem extractProductName_nonempty doc : extractProductName doc <> "".
Proof.
  unfold extractProductName.
  destruct (cascade _ nameSelectors) as [name|] eqn:E.
  - apply cascade_some in E as (s & _ & E). cbv zeta in E.
    destruct (JS.truthy _) eqn:T in E; [|discriminate].
    injection E as <-. unfold JS.truthy in T.
    now destruct (String.eqb_spec
                    (JS.trim (text (first (select (css s) doc)))) "").
  - cbv zeta. destruct (JS.truthy _) eqn:T; [|discriminate].
    unfold JS.truthy in T.
    match goal with |- ?t <> _ => now destruct (String.eqb_spec t "") end.
Qed.

(** X11: the price is never empty and carries no white space around it:
    it is the placeholder or the trimmed, non-empty text or attribute
    of a price selector. *)
Theorem extractProductPrice_trimmed doc :
  extractProductPrice doc <> ""
  /\ JS.trim (extractProductPrice doc) = extractProductPrice doc.
Proof.
  unfold extractProductPrice.
  destruct (cascade _ priceSelectors) as [price|] eqn:E.
  - apply cascade_some in E as (s & _ & E).
    now apply acceptTrimmed_some in E.
  - split; [discriminate|reflexivity].
Qed.

(** X12: the description carries no white space around it, and it is
    empty only when no description selector gave a text that is not
    blank. *)
Theorem extractProductDescription_trimmed doc :
  JS.trim (extractProductDescription doc) = extractProductDescription doc
  /\ (extractProductDescription doc = "" ->
      forall selector, In selector descriptionSelectors ->
        JS.startsWith (src selector) "meta" = false ->
        JS.trim (text (select (css selector) doc)) = "").
Proof.
  unfold extractProductDescription.
  destruct (cascade _ descriptionSelectors) as [desc|] eqn:E.
  - apply cascade_some in E as (s & _ & E).
    apply acceptTrimmed_some in E as [Hne Ht]. split; [exact Ht|].
    intros ->. contradiction.
  - split; [reflexivity|]. intros _ s Hs M.
    assert (forall sels, cascade
              (fun selector =>
                 acceptTrimmed
                   (if JS.startsWith (src selector) "meta"
                    then attr "content" (select (css selector) doc)
                    else Some (text (select (css selector) doc)))) sels = None ->
            In s sels ->
            acceptTrimmed (Some (text (select (css s) doc))) = None) as C.
    { induction sels as [|s0 rest IH]; [contradiction|].
      cbn [cascade]. destruct (acceptTrimmed _) eqn:A in |- *; [discriminate|].
      intros Hrest [-> | Hin]; [|now apply IH].
      now rewrite M in A. }
    specialize (C _ E Hs). unfold acceptTrimmed in C.
    destruct (text (select (css s) doc)) as [|c t] eqn:Et; [reflexivity|].
    cbn [JS.truthy String.eqb negb andb] in C.
    destruct (JS.truthy (JS.trim (String c t))) eqn:T; [discriminate|].
    unfold JS.truthy in T.
    now destruct (String.eqb_spec (JS.trim (String c t)) "").
Qed.

(** *** Features *)

Lemma foldl_addFeature features found :
  foldl addFeature features found
  = (features
     ++ List.filter JS.truthy
          (map (fun e => JS.trim (textContent (self e))) found))%list.
Proof.
  revert features. induction found as [|e found IH]; intros features.
  - cbn. now rewrite app_nil_r.
  - cbn [foldl map List.filter]. rewrite IH. unfold addFeature.
    rewrite text_single.
    destruct (JS.truthy (JS.trim (textContent (self e)))).
    + now rewrite <- app_assoc.
    + reflexivity.
Qed.

Lemma featureLoop_ref doc selectors :
  featureLoop doc selectors []
  = match
      List.find (fun selector => (0 <? length (featureTexts doc selector))%nat)
                selectors
    with
    | Some selector => featureTexts doc selector
    | None => []
    end.
Proof.
  induction selectors as [|selector rest IH]; [reflexivity|].
  cbn [featureLoop List.find].
  destruct (0 <? length (select (css selector) doc))%nat eqn:L.
  - rewrite foldl_addFeature. cbn [app]. fold (featureTexts doc selector).
    destruct (0 <? length (featureTexts doc selector))%nat eqn:F;
      [reflexivity|].
    destruct (featureTexts doc selector); [exact IH|discriminate].
  - assert (select (css selector) doc = []) as E
      by (destruct (select (css selector) doc); [reflexivity|discriminate]).
    unfold featureTexts at 1. rewrite E. cbn. exact IH.
Qed.

(** X13: the features are the trimmed, non-empty item texts of one
    selector, the first in the list that has any; items of different
    selectors are never merged, and without such a selector the list
    is empty. *)
Theorem extractProductFeatures_first_selector doc :
  extractProductFeatures doc = featuresRef doc.
Proof. unfold extractProductFeatures, featuresRef. apply featureLoop_ref. Qed.

(** X14: no feature is empty or carries white space around it. *)
Theorem extractProductFeatures_trimmed doc :
  Forall (fun feature => feature <> "" /\ JS.trim feature = feature)
         (extractProductFeatures doc).
Proof.
  unfold extractProductFeatures. rewrite featureLoop_ref.
  destruct (List.find _ featureSelectors) as [selector|]; [|constructor].
  unfold featureTexts. apply List.Forall_forall.
  intros f [(e & <- & _)%in_map_iff T]%filter_In.
  split; [|apply trim_idempotent].
  unfold JS.truthy in T.
  now destruct (String.eqb_spec (JS.trim (textContent (self e))) "").
Qed.

(** *** The key [__proto__] *)

Lemma putEntries_proto (es : list (option (string * string)))
    (specs : gmap string string) :
  specs !! "__proto__" = None ->
  foldl putEntry specs es !! "__proto__" = None.
Proof.
  revert specs. induction es as [|e es IH]; intros specs H; [exact H|].
  cbn [foldl]. apply IH. destruct e as [[key value]|]; [|exact H].
  cbn [putEntry]. unfold setProp.
  destruct (String.eqb_spec key "__proto__") as [_ | N]; [exact H|].
  rewrite lookup_insert_ne by exact N. exact H.
Qed.

(** X15: the specifications never have the key [__proto__]: a row or a
    term with that label gives no entry. *)
Theorem specifications_without_proto doc :
  extractProductSpecifications doc !! "__proto__" = None.
Proof.
  rewrite extractProductSpecifications_ref. unfold specificationsRef.
  destruct (List.find _ specSelectors) as [selector|].
  - unfold tableEntries. apply putEntries_proto, lookup_empty.
  - unfold listEntries. apply putEntries_proto, lookup_empty.
Qed.

Example featurePage_extraction :
  extractProductFeatures featurePage = ["PoE powered"]
  /\ extractProductSpecifications featurePage = ∅.
Proof. split; vm_compute; reflexivity. Qed.

End ParserFields.

(** ** The report *)

Section Report.

Import Dom ProductParser Spec More Render.

Variable entries : gmap string string -> list (string * string).

Lemma foldl_featureLine markdown fs :
  exists body, foldl featureLine markdown fs = markdown ++ body.
Proof.
  revert markdown. induction fs as [|f fs IH]; intros markdown.
  - exists "". now rewrite append_empty_r.
  - cbn [foldl]. destruct (IH (featureLine markdown f)) as (body & ->).
    unfold featureLine. exists (("- " ++ f ++ nl) ++ body).
    now rewrite append_assoc.
Qed.

Lemma foldl_specLine markdown kvs :
  exists body, foldl specLine markdown kvs = markdown ++ body.
Proof.
  revert markdown. induction kvs as [|kv kvs IH]; intros markdown.
  - exists "". now rewrite append_empty_r.
  - cbn [foldl]. destruct (IH (specLine markdown kv)) as (body & ->).
    unfold specLine.
    exists (("- **" ++ fst kv ++ "**: " ++ snd kv ++ nl) ++ body).
    now rewrite append_assoc.
Qed.

(** X16: whatever the fields, the report starts with the title line of
    the product name and a blank line, and ends with the line of the
    product URL. *)
Theorem toMarkdown_frame product :
  exists body,
    toMarkdown entries product
    = ("# " ++ name product ++ nl ++ nl) ++ body
      ++ "**Product URL**: " ++ url product ++ nl.
Proof.
  unfold toMarkdown. cbv zeta.
  set (m0 := "# " ++ name product ++ nl ++ nl).
  set (tail := "**Product URL**: " ++ url product ++ nl).
  assert (exists b1,
            (if JS.truthy (price product)
                && negb (String.eqb (price product) "Price not available")
             then m0 ++ "**Price**: " ++ price product ++ nl ++ nl
             else m0) = m0 ++ b1) as (b1 & ->).
  { destruct (_ && _); [now eexists|]. exists "". now rewrite append_empty_r. }
  assert (exists b2,
            (if JS.truthy (description product)
             then (m0 ++ b1) ++ "## Description" ++ nl ++ nl
                  ++ description product ++ nl ++ nl
             else m0 ++ b1) = m0 ++ b2) as (b2 & ->).
  { destruct (JS.truthy _); [|now exists b1].
    eexists. rewrite append_assoc. reflexivity. }
  assert (exists b3,
            (if (0 <? length (features product))%nat
             then foldl featureLine ((m0 ++ b2) ++ "## Features" ++ nl ++ nl)
                        (features product) ++ nl
             else m0 ++ b2) = m0 ++ b3) as (b3 & ->).
  { destruct (0 <? _)%nat; [|now exists b2].
    destruct (foldl_featureLine ((m0 ++ b2) ++ "## Features" ++ nl ++ nl)
                (features product)) as (body & ->).
    eexists. rewrite !append_assoc. reflexivity. }
  assert (exists b4,
            (if (0 <? keysLength (specifications product))%nat
             then foldl specLine ((m0 ++ b3) ++ "## Specifications" ++ nl ++ nl)
                        (entries (specifications product)) ++ nl
             else m0 ++ b3) = m0 ++ b4) as (b4 & ->).
  { destruct (0 <? _)%nat; [|now exists b3].
    destruct (foldl_specLine ((m0 ++ b3) ++ "## Specifications" ++ nl ++ nl)
                (entries (specifications product))) as (body & ->).
    eexists. rewrite !append_assoc. reflexivity. }
  exists b4. now rewrite append_assoc.
Qed.

(** X17: for a page on which no selector of any cascade matches, the
    report of the extracted product is the title line and the URL line
    only: no price line for the placeholder, no empty section. *)
Theorem toMarkdown_of_fallbacks doc pageUrl :
  noSelectorMatches doc ->
  toMarkdown entries (extractProductInfo doc pageUrl)
  = "# " ++ extractProductName doc ++ nl ++ nl
    ++ "**Product URL**: " ++ pageUrl ++ nl.
Proof.
  intros H.
  assert (extractProductName doc = name (extractProductInfo doc pageUrl)) as ->
    by reflexivity.
  rewrite (extractProductInfo_fallbacks doc pageUrl H).
  unfold toMarkdown.
  cbn [name price description features specifications url JS.truthy
       String.eqb Ascii.eqb Bool.eqb negb andb length Nat.ltb Nat.leb].
  unfold keysLength. rewrite map_size_empty. cbn [Nat.ltb Nat.leb].
  now rewrite !append_assoc.
Qed.

End Report.

Lemma toMarkdown_of_fallbacks_witness :
  Render.toMarkdown map_to_list
    (ProductParser.extractProductInfo Spec.titleOnlyPage
       "https://store.ui.com/us/products/widget")
  = "# " ++ ProductParser.extractProductName Spec.titleOnlyPage
    ++ Render.nl ++ Render.nl
    ++ "**Product URL**: " ++ "https://store.ui.com/us/products/widget"
    ++ Render.nl.
Proof.
  apply (toMarkdown_of_fallbacks map_to_list Spec.titleOnlyPage).
  exact titleOnlyPage_no_match.
Defined.

(** ** File and directory names *)

Section Sanitize.

Import Spec More.

Lemma backslashS_matchAlt s :
  allChars noBackslash s = true -> RegExp.matchAlt backslashS s = None.
Proof.
  unfold backslashS. cbn [RegExp.matchAlt RegExp.matchHere].
  destruct s as [|c s]; [reflexivity|].
  cbn [allChars]. unfold noBackslash at 1.
  now destruct (Ascii.eqb "\" c).
Qed.

(** A match of [backslashS] is never empty, so the fuel of [replaceAll]
    is enough: more fuel gives the same text. *)
Lemma backslashS_exec_lt s before cap rest :
  RegExp.exec backslashS s = Some (before, cap, rest) ->
  (String.length rest < String.length s)%nat.
Proof.
  intros (mid & -> & M)%exec_split. unfold backslashS in M.
  cbn [RegExp.matchAlt] in M.
  destruct (RegExp.matchHere _ mid) as [[c r]|] eqn:E; [|discriminate].
  injection M as <- <-. apply matchHere_rest_lt in E.
  induction before as [|x before IH]; [exact E|].
  change (String.length r < S (String.length (before ++ mid)))%nat. lia.
Qed.

Lemma replaceLoop_fuel repl fuel fuel' s :
  (String.length s < fuel)%nat -> (String.length s < fuel')%nat ->
  replaceLoop backslashS repl fuel s = replaceLoop backslashS repl fuel' s.
Proof.
  revert fuel' s. induction fuel as [|fuel IH]; intros fuel' s Hf Hf'; [lia|].
  destruct fuel' as [|fuel']; [lia|]. cbn [replaceLoop].
  destruct (RegExp.exec backslashS s) as [[[before cap] rest]|] eqn:E;
    [|reflexivity].
  apply backslashS_exec_lt in E. do 2 f_equal. apply IH; lia.
Qed.

Lemma backslashS_exec s :
  allChars noBackslash s = true -> RegExp.exec backslashS s = None.
Proof.
  induction s as [|c s IH]; intros H.
  - reflexivity.
  - cbn [RegExp.exec]. rewrite (backslashS_matchAlt _ H).
    cbn [allChars] in H. apply andb_true_iff in H as [_ H].
    now rewrite (IH H).
Qed.

Variable sanitize : string -> string.

(** X18: the replacement of [sanitizeName] looks for a backslash followed
    by [s], not for white space: when the sanitized name has no
    backslash, [sanitizeName] returns it as it is, spaces included. *)
Theorem sanitizeName_keeps_spaces name :
  allChars noBackslash (sanitize (JS.trim name)) = true ->
  sanitizeName sanitize name = sanitize (JS.trim name).
Proof.
  intros H. unfold sanitizeName, replaceAll. cbn [replaceLoop].
  now rewrite (backslashS_exec _ H).
Qed.

End Sanitize.

Lemma sanitizeName_keeps_spaces_witness :
  sanitizeName (fun s => s) "  Dream Machine Pro " = "Dream Machine Pro".
Proof.
  apply (sanitizeName_keeps_spaces (fun s => s) "  Dream Machine Pro ").
  vm_compute. reflexivity.
Defined.

Example sanitizeName_backslash :
  sanitizeName (fun s => s) "Dream\sssMachine Pro" = "Dream_Machine Pro".
Proof. vm_compute. reflexivity. Qed.

Section MediaFiles.

Import Spec More Media.

Lemma string_of_uint_digits d :
  allChars isDigit (NilEmpty.string_of_uint d) = true.
Proof. induction d; cbn [NilEmpty.string_of_uint allChars]; auto. Qed.

Lemma decimal_inj n m : decimal n = decimal m -> n = m.
Proof.
  unfold decimal. intros E.
  assert (Some (Nat.to_uint n) = Some (Nat.to_uint m)) as [= E']
    by (rewrite <- !NilEmpty.usu; now rewrite E).
  rewrite <- (DecimalNat.Unsigned.of_to n), <- (DecimalNat.Unsigned.of_to m).
  now rewrite E'.
Qed.

(** Digits followed by an extension split in one way only. *)
Lemma digits_dotted_inj a b e e' :
  allChars isDigit a = true -> allChars isDigit b = true ->
  dotted e -> dotted e' ->
  a ++ e = b ++ e' -> a = b.
Proof.
  revert b. induction a as [|x a IH]; intros [|y b] Ha Hb He He' E.
  - reflexivity.
  - exfalso. cbn [allChars] in Hb. apply andb_true_iff in Hb as [Hy _].
    destruct He as [-> | (t & ->)]; [discriminate|].
    injection E as <- _. discriminate.
  - exfalso. cbn [allChars] in Ha. apply andb_true_iff in Ha as [Hx _].
    destruct He' as [-> | (t & ->)]; [discriminate|].
    injection E as -> _. discriminate.
  - cbn [allChars] in Ha, Hb.
    apply andb_true_iff in Ha as [_ Ha]. apply andb_true_iff in Hb as [_ Hb].
    injection E as -> E. f_equal. now apply (IH b).
Qed.

Lemma append_inj_l (p a b : string) : p ++ a = p ++ b -> a = b.
Proof.
  induction p as [|c p IH]; [now intros|]. intros [= H]. now apply IH.
Qed.

Variable extname : string -> string.
Hypothesis extname_dotted : forall path, dotted (extname path).

Lemma downloadsFrom_urls kind i links :
  map fst (downloadsFrom extname kind i links) = links.
Proof.
  revert i. induction links as [|url rest IH]; intros i; [reflexivity|].
  cbn [downloadsFrom map fst]. now rewrite IH.
Qed.

Lemma downloadsFrom_index kind i links name :
  In name (map snd (downloadsFrom extname kind i links)) ->
  exists j url, (i <= j)%nat
                /\ name = kind ++ "_" ++ decimal (j + 1) ++ extname url.
Proof.
  revert i. induction links as [|url rest IH]; intros i; [contradiction|].
  cbn [downloadsFrom map snd]. intros [<- | H].
  - exists i, url. split; [lia|reflexivity].
  - destruct (IH _ H) as (j & u & Hj & ->). exists j, u. split; [lia|reflexivity].
Qed.

Lemma downloadsFrom_NoDup kind i links :
  List.NoDup (map snd (downloadsFrom extname kind i links)).
Proof.
  revert i. induction links as [|url rest IH]; intros i; [constructor|].
  cbn [downloadsFrom map snd]. constructor; [|apply IH].
  intros (j & u & Hj & E)%downloadsFrom_index.
  apply append_inj_l, append_inj_l in E.
  apply digits_dotted_inj in E;
    [|apply string_of_uint_digits|apply string_of_uint_digits
     |apply extname_dotted|apply extname_dotted].
  apply decimal_inj in E. lia.
Qed.

(** X19: the files of the images of a product get the links in their
    order, one file for each link, and names that are pairwise
    different whatever the extensions are, so no download overwrites
    another; the same holds for the videos and the documents. *)
Theorem download_names_distinct links :
  (map fst (imageDownloads extname links) = links
   /\ List.NoDup (map snd (imageDownloads extname links)))
  /\ (map fst (videoDownloads extname links) = links
      /\ List.NoDup (map snd (videoDownloads extname links)))
  /\ (map fst (pdfDownloads extname links) = links
      /\ List.NoDup (map snd (pdfDownloads extname links))).
Proof.
  unfold imageDownloads, videoDownloads, pdfDownloads.
  repeat split; first [apply downloadsFrom_urls | apply downloadsFrom_NoDup].
Qed.

End MediaFiles.

Lemma lastDotExt_dotted path : More.dotted (Media.lastDotExt path).
Proof.
  unfold Media.lastDotExt, More.dotted. cbv zeta.
  destruct (match Media.afterLast "/" path with
            | Some b => b
            | None => path
            end) as [|c base]; [now left|].
  destruct (Media.afterLast "." base) as [e|]; [right; now exists e|now left].
Qed.

Lemma download_names_distinct_witness :
  (map fst (Media.imageDownloads Media.lastDotExt More.sampleImages)
   = More.sampleImages
   /\ List.NoDup
        (map snd (Media.imageDownloads Media.lastDotExt More.sampleImages)))
  /\ (map fst (Media.videoDownloads Media.lastDotExt More.sampleImages)
      = More.sampleImages
      /\ List.NoDup
           (map snd (Media.videoDownloads Media.lastDotExt More.sampleImages)))
  /\ (map fst (Media.pdfDownloads Media.lastDotExt More.sampleImages)
      = More.sampleImages
      /\ List.NoDup
           (map snd (Media.pdfDownloads Media.lastDotExt More.sampleImages))).
Proof.
  exact (download_names_distinct Media.lastDotExt lastDotExt_dotted
           More.sampleImages).
Defined.

Example imageDownloads_names :
  map snd
    (Media.imageDownloads Media.lastDotExt
       ["https://cdn.ui.com/a/front.png"; "https://cdn.ui.com/b/front.png";
        "https://cdn.ui.com/c/side.jpg"; "https://cdn.ui.com/c/plain"])
  = ["image_1.png"; "image_2.png"; "image_3.jpg"; "image_4"].
Proof. vm_compute. reflexivity. Qed.

(** ** Category Classifier *)

Section ClassifierLabel.

Import Spec More.

Lemma titleCaseFrom_label wordStart s :
  allChars noHyphen (titleCaseFrom wordStart s) = true
  /\ String.length (titleCaseFrom wordStart s) = String.length s.
Proof.
  revert wordStart. induction s as [|c s IH]; intros wordStart;
    [now split|].
  cbn [titleCaseFrom]. destruct (Ascii.eqb_spec c "-") as [-> | N].
  - destruct (IH true) as [H1 H2]. cbn [allChars String.length].
    rewrite H1, H2. now split.
  - destruct (IH false) as [H1 H2]. cbn [allChars String.length].
    rewrite H1, H2. split; [|reflexivity]. rewrite andb_true_r.
    unfold noHyphen. apply negb_true_iff, Ascii.eqb_neq.
    destruct wordStart; [|exact N].
    unfold JS.upperChar. destruct (JS.isLower c) eqn:L; [|exact N].
    intros E. revert L. clear -E.
    destruct c as [[] [] [] [] [] [] [] []]; vm_compute in E |- *;
      congruence.
Qed.

(** X20: when the first [collections] segment of the URL is followed by
    a non-empty segment, the category has no hyphen, whatever the
    product name and the category list are, and when that segment is
    ASCII text the category has as many characters as the segment. *)
Theorem determineCategory_label productName url categories slug :
  slugAfterFirstCollections (JS.split "/" url) = Some slug ->
  allChars noHyphen (determineCategory productName url categories) = true
  /\ (allChars isAscii slug = true ->
      String.length (determineCategory productName url categories)
      = String.length slug).
Proof.
  intros H. rewrite slugAfterFirst_indexOf in H. cbv zeta in H.
  unfold determineCategory. cbv zeta.
  destruct (negb _ && (_ <? _)); [|discriminate].
  destruct (JS.truthy _ && negb _); [|discriminate].
  injection H as <-.
  change (fun word => JS.toUpperCase (JS.charAt0 word) ++ JS.slice1 word)
    with capitalize.
  rewrite <- (proj1 (titleCase_split _)).
  split; [|intros _]; apply titleCaseFrom_label.
Qed.

End ClassifierLabel.

Lemma determineCategory_label_witness :
  Spec.allChars More.noHyphen
    (determineCategory "G4 Bullet"
       "https://store.ui.com/us/collections/unifi-door-access/products/g4" [])
  = true
  /\ String.length
       (determineCategory "G4 Bullet"
          "https://store.ui.com/us/collections/unifi-door-access/products/g4" [])
     = String.length "unifi-door-access".
Proof.
  destruct (determineCategory_label "G4 Bullet"
              "https://store.ui.com/us/collections/unifi-door-access/products/g4"
              [] "unifi-door-access") as [H L].
  - vm_compute. reflexivity.
  - split; [exact H|]. apply L. vm_compute. reflexivity.
Defined.
